(** * A/B bucket assignment at the edge: [cdk/lib/lambda/ab-lambda-function.js]

    The handler is embedded as a function over JavaScript data in a small
    monad that threads the console, the random source and the way a
    JavaScript computation ends (normally or by a throw).  The definitions
    come first: the values, the monad, the operations of the language, the
    handler, and the vocabulary of the statements.  The lemmas and the
    properties of the handler follow. *)

From Stdlib Require Import QArith.
From stdpp Require Import gmap strings list fin_maps pretty.

Set Warnings "-register-all".

(** ** JavaScript values *)

(** A JavaScript number is an IEEE double.  Every finite double is a
    rational, and the only arithmetic the handler performs on numbers is
    comparison, which is exact on doubles; a finite number is therefore
    carried by its exact value.  The rationals that are not doubles are
    extra inputs on which the handler is specified all the same. *)
Inductive number : Type :=
| NaN
| Infinity (negative : bool)
| Finite (q : Q).

(** The data an event is made of (what [JSON.parse] can build), and
    [undefined], which reading an absent property yields.  An object is a
    finite map from property names to values.  A string is the sequence of
    its code units; the markers the handler looks for are ASCII. *)
Inductive value : Type :=
| Undefined
| Null
| Bool (b : bool)
| Number (n : number)
| Str (s : string)
| Arr (elems : list value)
| Obj (props : gmap string value).

(** A property key: a name, or an array index.  [Index i] stands for the
    name that is the decimal writing of [i]. *)
Inductive key : Type :=
| Name (s : string)
| Index (i : nat).

Definition key_name (k : key) : string :=
  match k with
  | Name s => s
  | Index i => pretty i
  end.

Definition of_nat (n : nat) : value := Number (Finite (inject_Z (Z.of_nat n))).

(** ** The world of one invocation *)

(** One call of [console.log]: the format string and the values after it. *)
Record log_line : Type := LogLine { format : string; arguments : list value }.

(** [console] holds the lines written so far, oldest first.  [random] is
    the sequence of values [Math.random] is going to return and [draws]
    counts how many have been consumed. *)
Record world : Type := World {
  console : list log_line;
  random : nat -> Q;
  draws : nat
}.

Inductive exn : Type :=
| TypeError.

(** How a computation ends: normally with a value, abruptly with a thrown
    exception, in an operation this development gives no meaning to
    (conversion of a string or an object to a number), or with its
    iteration budget spent. *)
Inductive outcome (A : Type) : Type :=
| Return (a : A)
| Throw (e : exn)
| Unsupported
| OutOfFuel.
Arguments Return {A} a.
Arguments Throw {A} e.
Arguments Unsupported {A}.
Arguments OutOfFuel {A}.

Definition M (A : Type) : Type := world -> world * outcome A.

Definition ret {A : Type} (a : A) : M A := fun w => (w, Return a).

Definition bind {A B : Type} (c : M A) (k : A -> M B) : M B :=
  fun w =>
    match c w with
    | (w', Return a) => k a w'
    | (w', Throw e) => (w', Throw e)
    | (w', Unsupported) => (w', Unsupported)
    | (w', OutOfFuel) => (w', OutOfFuel)
    end.

Definition throw {A : Type} (e : exn) : M A := fun w => (w, Throw e).
Definition unsupported {A : Type} : M A := fun w => (w, Unsupported).
Definition out_of_fuel {A : Type} : M A := fun w => (w, OutOfFuel).

Declare Scope js_scope.
Delimit Scope js_scope with js.
Notation "x <- c ;; k" := (bind c (fun x => k))
  (at level 100, c at next level, right associativity) : js_scope.
Notation "c ;;; k" := (bind c (fun _ => k))
  (at level 100, k at level 200, right associativity) : js_scope.

(** [console.log(format, ...arguments)] *)
Definition console_log (fmt : string) (args : list value) : M unit :=
  fun w => (World (console w ++ [LogLine fmt args]) (random w) (draws w), Return tt).

(** [Math.random()] *)
Definition Math_random : M Q :=
  fun w => (World (console w) (random w) (S (draws w)), Return (random w (draws w))).

(** ** The operations of the language the handler uses *)

(** ToBoolean, the test of [if (headers.cookie)]. *)
Definition ToBoolean (v : value) : bool :=
  match v with
  | Undefined | Null => false
  | Bool b => b
  | Number NaN => false
  | Number (Infinity _) => true
  | Number (Finite q) => negb (Qeq_bool q 0%Q)
  | Str s => negb (String.eqb s "")
  | Arr _ | Obj _ => true
  end.

(** Property read [v.k] and [v[i]]; [None] stands for the TypeError that
    reading a property of [undefined] or [null] throws.  Prototype chains
    are left out: the names the handler reads this way ([Records], [cf],
    [request], [headers], [cookie], [value], [length] and indices) are
    defined by none of the built-in prototypes, so a primitive or an object
    without the property reads as [undefined]; and a [Name] is never the
    decimal writing of an index. *)
Definition property (v : value) (k : key) : option value :=
  match v with
  | Undefined | Null => None
  | Bool _ | Number _ => Some Undefined
  | Str s =>
      match k with
      | Name n =>
          if String.eqb n "length" then Some (of_nat (String.length s))
          else Some Undefined
      | Index i =>
          match String.get i s with
          | Some c => Some (Str (String c EmptyString))
          | None => Some Undefined
          end
      end
  | Arr elems =>
      match k with
      | Name n =>
          if String.eqb n "length" then Some (of_nat (length elems))
          else Some Undefined
      | Index i => Some (default Undefined (elems !! i))
      end
  | Obj props => Some (default Undefined (props !! key_name k))
  end.

Definition get (v : value) (k : key) : M value :=
  match property v k with
  | Some x => ret x
  | None => throw TypeError
  end.

Definition Qltb (x y : Q) : bool := negb (Qle_bool y x).

(** [i < v] for a loop counter [i]: [v] is converted to a number.  The
    conversion of [undefined] is NaN, of [null] is 0, of a boolean 0 or 1;
    a comparison with NaN is false. *)
Definition less_than (i : nat) (v : value) : M bool :=
  let i := inject_Z (Z.of_nat i) in
  match v with
  | Undefined => ret false
  | Null => ret (Qltb i 0%Q)
  | Bool b => ret (Qltb i (if b then 1%Q else 0%Q))
  | Number NaN => ret false
  | Number (Infinity negative) => ret (negb negative)
  | Number (Finite q) => ret (Qltb i q)
  | Str _ | Arr _ | Obj _ => unsupported
  end.

(** [String.prototype.indexOf]: the position of the first occurrence of
    [search] in [s], or -1. *)
Fixpoint first_occurrence (search s : string) (pos : nat) : option nat :=
  if String.prefix search s then Some pos
  else
    match s with
    | EmptyString => None
    | String _ s' => first_occurrence search s' (S pos)
    end.

Definition position (found : option nat) : Z :=
  match found with
  | Some pos => Z.of_nat pos
  | None => (-1)%Z
  end.

Definition String_indexOf (s search : string) : Z :=
  position (first_occurrence search s 0).

(** [Array.prototype.indexOf] with a string searched for: the position of
    the first element strictly equal to it, or -1. *)
Fixpoint first_element (search : string) (elems : list value) (pos : nat) : option nat :=
  match elems with
  | [] => None
  | Str s :: elems' =>
      if String.eqb s search then Some pos else first_element search elems' (S pos)
  | _ :: elems' => first_element search elems' (S pos)
  end.

Definition Array_indexOf (elems : list value) (search : string) : Z :=
  position (first_element search elems 0).

(** The method call [v.indexOf(search)].  A string and an array inherit
    [indexOf] from their prototypes.  On [undefined] and [null] the read of
    the property throws; on every other value [v.indexOf] is [undefined]
    or, for an object with such a property of its own, a piece of data, and
    calling it throws. *)
Definition indexOf (v : value) (search : string) : M Z :=
  match v with
  | Str s => ret (String_indexOf s search)
  | Arr elems => ret (Array_indexOf elems search)
  | Undefined | Null | Bool _ | Number _ | Obj _ => throw TypeError
  end.

(** The assignment [v.name = x].  The handler assigns to one object only,
    the literal it has just built; the result is the object after the
    assignment.  Assigning to a property of anything that is not an object
    throws (the file is in strict mode). *)
Definition set (v : value) (name : string) (x : value) : M value :=
  match v with
  | Obj props => ret (Obj (<[name := x]> props))
  | _ => throw TypeError
  end.

(** ** The handler *)

Definition groupBUri : string := "/blue/".
Definition cookieExperimentA : string := "X-Experiment-Name=A".
Definition cookieExperimentB : string := "X-Experiment-Name=B".

(** The arguments [callback] is called with. *)
Record completion : Type := Callback { error : value; result : value }.

Open Scope js_scope.

(** The [for] loop of the handler, entered at the test
    [i < headers.cookie.length] with the current values of the two
    variables it assigns.  It returns their values on exit. *)
Fixpoint scan (fuel : nat) (headers : value) (i : nat)
    (selectedExperiment : string) (cookiePresent : bool) : M (string * bool) :=
  match fuel with
  | O => out_of_fuel
  | S fuel' =>
      cookie <- get headers (Name "cookie") ;;
      len <- get cookie (Name "length") ;;
      more <- less_than i len ;;
      if more : bool then
        cookie <- get headers (Name "cookie") ;;
        entry <- get cookie (Index i) ;;
        v <- get entry (Name "value") ;;
        pos <- indexOf v cookieExperimentA ;;
        if (0 <=? pos)%Z then
          console_log "Experiment A cookie found" [] ;;;
          ret (cookieExperimentA, true)
        else
          cookie <- get headers (Name "cookie") ;;
          entry <- get cookie (Index i) ;;
          v <- get entry (Name "value") ;;
          pos <- indexOf v cookieExperimentB ;;
          if (0 <=? pos)%Z then
            console_log "Experiment B cookie found" [] ;;;
            ret (cookieExperimentB, true)
          else scan fuel' headers (S i) selectedExperiment cookiePresent
      else ret (selectedExperiment, cookiePresent)
  end.

(** The number of times the body of the loop can run to its end over
    [cookie]: each such run reads an element of its own. *)
Definition iterations (cookie : value) : nat :=
  match cookie with
  | Arr elems => length elems
  | Str s => String.length s
  | Obj props => size props
  | _ => O
  end.

(** [exports.handler].  Its [context] is not used and is left out.  The
    call [callback(null, response)] is the last thing the handler does; the
    embedding returns the arguments of that call.  The budget given to the
    loop is never spent ([handler_within_fuel] below). *)
Definition handler (event : value) : M completion :=
  records <- get event (Name "Records") ;;
  record <- get records (Index 0) ;;
  cf <- get record (Name "cf") ;;
  request <- get cf (Name "request") ;;
  console_log "Lambda@Edge Request: %j" [request] ;;;
  headers <- get request (Name "headers") ;;
  let response :=
    Obj {[ "status" := Str "302"; "statusDescription" := Str "Found" ]} in
  let selectedExperiment := cookieExperimentA in
  let cookiePresent := false in
  cookie <- get headers (Name "cookie") ;;
  scanned <-
    (if ToBoolean cookie
     then scan (S (iterations cookie)) headers 0 selectedExperiment cookiePresent
     else ret (selectedExperiment, cookiePresent)) ;;
  let '(selectedExperiment, cookiePresent) := scanned in
  response <-
    (if negb cookiePresent then
       console_log "Experiment cookie has not been found. Throwing dice..." [] ;;;
       r <- Math_random ;;
       selectedExperiment <-
         (if Qltb r (3 # 4)%Q then
            console_log "Experiment A chosen" [] ;;;
            ret cookieExperimentA
          else
            console_log "Experiment B chosen" [] ;;;
            ret cookieExperimentB) ;;
       set response "headers"
         (Obj {[ "location" := Arr [Obj {[
                   "key" := Str "Location";
                   "value" := Str (if String.eqb selectedExperiment cookieExperimentB
                                   then groupBUri else "/") ]}];
                 "set-cookie" := Arr [Obj {[
                   "key" := Str "Set-Cookie";
                   "value" := Str selectedExperiment ]}] ]})
     else
       console_log "Experiment cookie has been found. Experimental group selected: %s"
         [Str selectedExperiment] ;;;
       ret request) ;;
  console_log "Final response: %j" [response] ;;;
  ret (Callback Null response).

Close Scope js_scope.


(** ** Vocabulary of the statements *)

(** [marker] occurs in [s]. *)
Definition contains (s marker : string) : Prop :=
  exists before after, s = before +:+ marker +:+ after.

(** The request an event carries, [event.Records[0].cf.request], when
    reading it does not throw. *)
Definition request_of (event : value) : option value :=
  records ← property event (Name "Records");
  record ← property records (Index 0);
  cf ← property record (Name "cf");
  property cf (Name "request").

(** [event] carries [request], whose header map is [headers]. *)
Definition carries (event request : value) (headers : gmap string value) : Prop :=
  request_of event = Some request /\
  property request (Name "headers") = Some (Obj headers).

(** The cookie string of a header entry [{key, value}]. *)
Definition entry_value (entry : value) : option string :=
  match entry with
  | Obj props =>
      match props !! "value" with
      | Some (Str s) => Some s
      | _ => None
      end
  | _ => None
  end.

Definition well_formed_entry (entry : value) : Prop :=
  is_Some (entry_value entry).

(** The entry's cookie string contains [marker]. *)
Definition holds (marker : string) (entry : value) : Prop :=
  exists s, entry_value entry = Some s /\ contains s marker.

Definition recognized (entry : value) : Prop :=
  holds cookieExperimentA entry \/ holds cookieExperimentB entry.

(** A well-formed entry whose cookie string contains neither marker. *)
Definition plain (entry : value) : Prop :=
  exists s, entry_value entry = Some s /\
    ~ contains s cookieExperimentA /\ ~ contains s cookieExperimentB.

(** The cookie header is absent, or is a list of entries none of which
    holds a marker. *)
Definition unassigned (headers : gmap string value) : Prop :=
  headers !! "cookie" = None \/
  exists entries, headers !! "cookie" = Some (Arr entries) /\ Forall plain entries.

(** The cookie header is absent, or is a list of entries [{key, value}]
    whose [value] is a string. *)
Definition well_formed_cookies (headers : gmap string value) : Prop :=
  headers !! "cookie" = None \/
  exists entries,
    headers !! "cookie" = Some (Arr entries) /\ Forall well_formed_entry entries.

(** A property of an object, when it has it. *)
Definition field (v : value) (name : string) : option value :=
  match v with
  | Obj props => props !! name
  | _ => None
  end.

(** The one entry [{key, value}] of header [name] of a response. *)
Definition header (response : value) (name : string) : option (string * string) :=
  match field response "headers" ≫= (fun headers => field headers name) with
  | Some (Arr [Obj entry]) =>
      match entry !! "key", entry !! "value" with
      | Some (Str k), Some (Str v) => Some (k, v)
      | _, _ => None
      end
  | _ => None
  end.

(** The response the random path builds, as a function of the two strings
    it puts in it. *)
Definition redirect (location cookie : string) : value :=
  Obj {[ "status" := Str "302";
         "statusDescription" := Str "Found";
         "headers" :=
           Obj {[ "location" := Arr [Obj {[ "key" := Str "Location";
                                            "value" := Str location ]}];
                  "set-cookie" := Arr [Obj {[ "key" := Str "Set-Cookie";
                                              "value" := Str cookie ]}] ]} ]}.

(** The redirect descriptor as the interface section of the specification
    writes it: the header map is keyed by [Location] and [Set-Cookie]. *)
Definition documented_redirect (location cookie : string) : value :=
  Obj {[ "status" := Str "302";
         "statusDescription" := Str "Found";
         "headers" :=
           Obj {[ "Location" := Arr [Obj {[ "key" := Str "Location";
                                            "value" := Str location ]}];
                  "Set-Cookie" := Arr [Obj {[ "key" := Str "Set-Cookie";
                                              "value" := Str cookie ]}] ]} ]}.

(** The response of the random path when [Math.random] returns [r]. *)
Definition dice_response (r : Q) : value :=
  if Qltb r (3 # 4)%Q
  then redirect "/" cookieExperimentA
  else redirect groupBUri cookieExperimentB.

(** The next value of [Math.random]. *)
Definition next_random (w : world) : Q := random w (draws w).

(** The world with [lines] written on the console, and after one draw. *)
Definition logged (w : world) (lines : list log_line) : world :=
  World (console w ++ lines) (random w) (draws w).

Definition drawn (w : world) : world :=
  World (console w) (random w) (S (draws w)).

(** The world once the handler has read and printed the request. *)
Definition request_logged (w : world) (request : value) : world :=
  logged w [LogLine "Lambda@Edge Request: %j" [request]].

(** The world after a marker has been found in world [w]. *)
Definition found_world (w : world) (request : value) (selectedExperiment : string) : world :=
  logged w
    [LogLine "Experiment cookie has been found. Experimental group selected: %s"
       [Str selectedExperiment];
     LogLine "Final response: %j" [request]].

(** The world after the random path has run from [w]. *)
Definition dice_world (w : world) : world :=
  World (console w ++
           [LogLine "Experiment cookie has not been found. Throwing dice..." [];
            LogLine (if Qltb (next_random w) (3 # 4)%Q
                     then "Experiment A chosen" else "Experiment B chosen") [];
            LogLine "Final response: %j" [dice_response (next_random w)]])
        (random w) (S (draws w)).

(** What the handler writes on the console when it passes a request
    through with [marker] found. *)
Definition pass_trace (request : value) (marker : string) : list log_line :=
  [LogLine "Lambda@Edge Request: %j" [request];
   LogLine (if String.eqb marker cookieExperimentB
            then "Experiment B cookie found" else "Experiment A cookie found") [];
   LogLine "Experiment cookie has been found. Experimental group selected: %s"
     [Str marker];
   LogLine "Final response: %j" [request]].

(** A computation that leaves the random source alone. *)
Definition quiet {A : Type} (c : M A) : Prop :=
  forall w w' o, c w = (w', o) -> random w' = random w /\ draws w' = draws w.

(** The loop has come to index [i] over [cookie]: the indices below [i]
    are those of elements it has read. *)
Definition visited (cookie : value) (i : nat) : Prop :=
  match cookie with
  | Arr elems => i <= length elems
  | Str s => i <= String.length s
  | Obj props => forall j, j < i -> is_Some (props !! pretty j)
  | _ => i = 0
  end.

(** ** Sample data *)

Definition event_of (request : value) : value :=
  Obj {[ "Records" := Arr [Obj {[ "cf" := Obj {[ "request" := request ]} ]}] ]}.

Definition request_with (headers : gmap string value) : value :=
  Obj {[ "method" := Str "GET"; "uri" := Str "/index.html"; "headers" := Obj headers ]}.

Definition cookie_entry (s : string) : value :=
  Obj {[ "key" := Str "Cookie"; "value" := Str s ]}.

Definition host : value :=
  Arr [Obj {[ "key" := Str "Host"; "value" := Str "d123.cloudfront.net" ]}].

(** Header maps: without cookies, with cookies that hold no marker, with
    the B marker in the second entry, with both markers in one entry (B
    first), with A in an entry and B in a later one, with A between two
    entries that hold B, and with an entry that has no [value]. *)
Definition no_cookies : gmap string value :=
  {[ "host" := host ]}.

Definition plain_cookies : gmap string value :=
  {[ "host" := host; "cookie" := Arr [cookie_entry ""; cookie_entry "theme=dark"] ]}.

Definition cookies_B : gmap string value :=
  {[ "host" := host;
     "cookie" := Arr [cookie_entry "theme=dark";
                      cookie_entry "X-Experiment-Name=B; lang=en"] ]}.

Definition cookies_both : gmap string value :=
  {[ "cookie" := Arr [cookie_entry "X-Experiment-Name=B; X-Experiment-Name=A"] ]}.

Definition cookies_A_then_B : gmap string value :=
  {[ "cookie" := Arr [cookie_entry "theme=dark";
                      cookie_entry "X-Experiment-Name=A";
                      cookie_entry "X-Experiment-Name=B"] ]}.

Definition cookies_B_A_B : gmap string value :=
  {[ "cookie" := Arr [cookie_entry "X-Experiment-Name=B";
                      cookie_entry "X-Experiment-Name=A";
                      cookie_entry "X-Experiment-Name=B"] ]}.

Definition cookies_without_value : gmap string value :=
  {[ "cookie" := Arr [Obj {[ "key" := Str "Cookie" ]}] ]}.

(** A world with an empty console in which every draw is [r]. *)
Definition world_of (r : Q) : world := World [] (fun _ => r) 0.

(** ** Vocabulary of the further properties *)

(** The console line the loop writes when it finds [marker]. *)
Definition found_line (marker : string) : log_line :=
  LogLine (if String.eqb marker cookieExperimentB
           then "Experiment B cookie found" else "Experiment A cookie found") [].

(** What the handler writes on the console on the random path when
    [Math.random] returns [r]. *)
Definition dice_trace (request : value) (r : Q) : list log_line :=
  [LogLine "Lambda@Edge Request: %j" [request];
   LogLine "Experiment cookie has not been found. Throwing dice..." [];
   LogLine (if Qltb r (3 # 4)%Q
            then "Experiment A chosen" else "Experiment B chosen") [];
   LogLine "Final response: %j" [dice_response r]].

(** The call [entry.value.indexOf(...)] throws: reading [value] throws, or
    what is read is neither a string nor an array. *)
Definition unreadable (entry : value) : bool :=
  match property entry (Name "value") with
  | Some (Str _) | Some (Arr _) => false
  | _ => true
  end.

(** The [length] of the cookie header is missing, [null], a boolean or a
    number: the loop test compares the counter with it as [less_than]
    tells.  This is so of every list and of every string. *)
Definition length_is_primitive (cookie : value) : bool :=
  match property cookie (Name "length") with
  | Some (Str _) | Some (Arr _) | Some (Obj _) => false
  | _ => true
  end.

(** A cookie header that is not a list and has nothing to scan:
    [undefined], [null], a boolean, a number or the empty string. *)
Definition without_entries (cookie : value) : bool :=
  match cookie with
  | Undefined | Null | Bool _ | Number _ => true
  | Str s => String.eqb s ""
  | Arr _ | Obj _ => false
  end.


(** Header maps and requests for the further properties: a request
    without a header map, cookies with a malformed entry before one that
    holds a marker, cookies with the B marker only, and cookie headers that
    are not lists: [null], a string, and an object that claims an infinite
    length. *)
Definition request_without_headers : value :=
  Obj {[ "method" := Str "GET"; "uri" := Str "/index.html" ]}.

Definition cookies_malformed_then_A : gmap string value :=
  {[ "cookie" := Arr [cookie_entry "theme=dark";
                      Obj {[ "key" := Str "Cookie" ]};
                      cookie_entry "X-Experiment-Name=A"] ]}.

Definition cookies_only_B : gmap string value :=
  {[ "host" := host;
     "cookie" := Arr [cookie_entry "theme=dark"; cookie_entry "X-Experiment-Name=B"] ]}.

Definition cookie_null : gmap string value :=
  {[ "host" := host; "cookie" := Null ]}.

Definition cookie_string : gmap string value :=
  {[ "host" := host; "cookie" := Str "X-Experiment-Name=A" ]}.

(** The cookies of [cookies_B] with other headers around them. *)
Definition cookies_B_among_headers : gmap string value :=
  {[ "accept" := Arr [Obj {[ "key" := Str "Accept"; "value" := Str "*/*" ]}];
     "cookie" := Arr [cookie_entry "theme=dark";
                      cookie_entry "X-Experiment-Name=B; lang=en"] ]}.

Definition cookie_unbounded : value :=
  Obj {[ "length" := Number (Infinity false); "0" := cookie_entry "theme=dark" ]}.

(** ** Substring search *)

Lemma prefix_spec (p s : string) :
  String.prefix p s = true <-> exists rest, s = p +:+ rest.
Proof.
  revert s. induction p as [|c p IH]; intros [|d s]; simpl.
  - split; [intros _; by exists "" | done].
  - split; [intros _; by exists (String d s) | done].
  - split; [done | intros [rest H]; discriminate H].
  - destruct (Ascii.ascii_dec c d) as [->|Hne].
    + rewrite IH. split; intros [rest H]; exists rest.
      * by rewrite H.
      * by injection H.
    + split; [done | intros [rest H]; injection H; congruence].
Qed.

Lemma first_occurrence_unfold (search s : string) (pos : nat) :
  first_occurrence search s pos =
    if String.prefix search s then Some pos
    else match s with
         | EmptyString => None
         | String _ s' => first_occurrence search s' (S pos)
         end.
Proof. by destruct s. Qed.

Lemma contains_prefix (search s : string) :
  String.prefix search s = true -> contains s search.
Proof. intros [rest E]%prefix_spec. by exists "", rest. Qed.

Lemma contains_cons (search s : string) (c : Ascii.ascii) :
  contains s search -> contains (String c s) search.
Proof.
  intros [before [after H]]. exists (String c before), after. simpl. by rewrite H.
Qed.

Lemma contains_inv (search s : string) :
  contains s search ->
  String.prefix search s = true \/
  exists c s', s = String c s' /\ contains s' search.
Proof.
  intros [[|c before] [after H]].
  - left. apply prefix_spec. by exists after.
  - right. exists c, (before +:+ search +:+ after). split; [done |]. by exists before, after.
Qed.

Lemma first_occurrence_Some (search s : string) (pos found : nat) :
  first_occurrence search s pos = Some found -> contains s search.
Proof.
  revert pos. induction s as [|c s IH]; intros pos;
    rewrite first_occurrence_unfold;
    destruct (String.prefix search _) eqn:E; try done;
    try (intros _; by apply contains_prefix).
  intros H. apply contains_cons. by eapply IH.
Qed.

Lemma first_occurrence_None (search s : string) (pos : nat) :
  first_occurrence search s pos = None -> ~ contains s search.
Proof.
  revert pos. induction s as [|c s IH]; intros pos;
    rewrite first_occurrence_unfold;
    destruct (String.prefix search _) eqn:E; try done;
    intros H [E' | (c' & s' & Hs & H')]%contains_inv; try congruence.
  injection Hs as -> ->. by eapply IH.
Qed.

(** [indexOf] answers a position exactly when the marker occurs. *)
Lemma String_indexOf_nonneg (s search : string) :
  (0 <=? String_indexOf s search)%Z = true <-> contains s search.
Proof.
  unfold String_indexOf.
  destruct (first_occurrence search s 0) as [pos|] eqn:E; simpl.
  - split; [intros _ | intros _; apply Z.leb_le; lia].
    by apply first_occurrence_Some in E.
  - apply first_occurrence_None in E. split; [done | intros H; by destruct E].
Qed.

Lemma String_indexOf_negative (s search : string) :
  (0 <=? String_indexOf s search)%Z = false <-> ~ contains s search.
Proof.
  rewrite <- String_indexOf_nonneg. by destruct (0 <=? String_indexOf s search)%Z.
Qed.

(** ** Running the monad *)

Lemma logged_logged (w : world) (l1 l2 : list log_line) :
  logged (logged w l1) l2 = logged w (l1 ++ l2).
Proof. unfold logged. simpl. by rewrite app_assoc. Qed.

Lemma bind_Return {A B : Type} (c : M A) (k : A -> M B) (w w' : world) (a : A) :
  c w = (w', Return a) -> bind c k w = k a w'.
Proof. intros H. unfold bind. by rewrite H. Qed.

Lemma get_Some (v x : value) (k : key) (w : world) :
  property v k = Some x -> get v k w = (w, Return x).
Proof. intros H. unfold get. by rewrite H. Qed.

Lemma bind_get {B : Type} (v x : value) (k : key) (f : value -> M B) (w : world) :
  property v k = Some x -> bind (get v k) f w = f x w.
Proof. intros H. by apply bind_Return, get_Some. Qed.

Lemma bind_get_None {B : Type} (v : value) (k : key) (f : value -> M B) (w : world) :
  property v k = None -> bind (get v k) f w = (w, Throw TypeError).
Proof. intros H. unfold bind, get. by rewrite H. Qed.

Lemma bind_ret {A B : Type} (a : A) (k : A -> M B) (w : world) :
  bind (ret a) k w = k a w.
Proof. reflexivity. Qed.

Lemma bind_assoc {A B C : Type} (c : M A) (f : A -> M B) (g : B -> M C) (w : world) :
  bind (bind c f) g w = bind c (fun a => bind (f a) g) w.
Proof. unfold bind. by destruct (c w) as [w' []]. Qed.

Lemma bind_console_log {B : Type} (fmt : string) (args : list value)
    (k : unit -> M B) (w : world) :
  bind (console_log fmt args) k w = k tt (logged w [LogLine fmt args]).
Proof. reflexivity. Qed.

Lemma bind_Math_random {B : Type} (k : Q -> M B) (w : world) :
  bind Math_random k w = k (random w (draws w)) (drawn w).
Proof. reflexivity. Qed.

(** Runs the effects at the head of a computation. *)
Ltac js_run :=
  repeat (cbv beta;
          first [ rewrite bind_assoc
                | rewrite bind_console_log
                | rewrite bind_Math_random
                | rewrite bind_ret ]).

Lemma Qltb_lt (x y : Q) : Qltb x y = true <-> (x < y)%Q.
Proof.
  unfold Qltb. rewrite negb_true_iff, <- not_true_iff_false, Qle_bool_iff.
  split; [apply Qnot_le_lt | apply Qlt_not_le].
Qed.

Lemma Qltb_inject_Z (a b : Z) : Qltb (inject_Z a) (inject_Z b) = (a <? b)%Z.
Proof.
  destruct (a <? b)%Z eqn:E.
  - apply Qltb_lt. rewrite <- Zlt_Qlt. by apply Z.ltb_lt.
  - apply not_true_iff_false. rewrite Qltb_lt, <- Zlt_Qlt. by apply Z.ltb_nlt.
Qed.

Lemma less_than_of_nat (i n : nat) (w : world) :
  less_than i (of_nat n) w = (w, Return (bool_decide (i < n))).
Proof.
  unfold less_than, of_nat, ret. rewrite Qltb_inject_Z. do 2 f_equal.
  case_bool_decide; [apply Z.ltb_lt | apply Z.ltb_nlt]; lia.
Qed.

(** ** The loop over a list of header entries *)

Section Scan.
Context (headers : gmap string value) (entries : list value).
Hypothesis Hcookie : headers !! "cookie" = Some (Arr entries).

Lemma property_cookie : property (Obj headers) (Name "cookie") = Some (Arr entries).
Proof. simpl. by rewrite Hcookie. Qed.

(** One turn of the loop on a well-formed entry. *)
Lemma scan_step (fuel i : nat) (entry : value) (s : string)
    (selectedExperiment : string) (cookiePresent : bool) (w : world) :
  entries !! i = Some entry ->
  entry_value entry = Some s ->
  scan (S fuel) (Obj headers) i selectedExperiment cookiePresent w =
    if (0 <=? String_indexOf s cookieExperimentA)%Z then
      (logged w [LogLine "Experiment A cookie found" []],
       Return (cookieExperimentA, true))
    else if (0 <=? String_indexOf s cookieExperimentB)%Z then
      (logged w [LogLine "Experiment B cookie found" []],
       Return (cookieExperimentB, true))
    else scan fuel (Obj headers) (S i) selectedExperiment cookiePresent w.
Proof.
  intros Hentry Hvalue.
  assert (property (Arr entries) (Index i) = Some entry) as Hi
    by (simpl; by rewrite Hentry).
  assert (property entry (Name "value") = Some (Str s)) as Hv.
  { destruct entry as [| | | | |?|props]; try done. simpl in *.
    destruct (props !! "value") as [[]|]; try done. by injection Hvalue as ->. }
  cbn [scan].
  rewrite (bind_get _ _ _ _ _ property_cookie).
  rewrite (bind_get (Arr entries) (of_nat (length entries))) by done.
  rewrite (bind_Return _ _ _ _ _ (less_than_of_nat _ _ _)).
  rewrite bool_decide_eq_true_2 by (by eapply lookup_lt_Some).
  rewrite (bind_get _ _ _ _ _ property_cookie).
  rewrite (bind_get _ _ _ _ _ Hi), (bind_get _ _ _ _ _ Hv).
  unfold indexOf at 1. rewrite bind_ret.
  destruct (0 <=? String_indexOf s cookieExperimentA)%Z; [done |].
  rewrite (bind_get _ _ _ _ _ property_cookie).
  rewrite (bind_get _ _ _ _ _ Hi), (bind_get _ _ _ _ _ Hv).
  unfold indexOf at 1. rewrite bind_ret.
  by destruct (0 <=? String_indexOf s cookieExperimentB)%Z.
Qed.

(** The test that ends the loop. *)
Lemma scan_end (fuel i : nat)
    (selectedExperiment : string) (cookiePresent : bool) (w : world) :
  length entries <= i ->
  scan (S fuel) (Obj headers) i selectedExperiment cookiePresent w =
    (w, Return (selectedExperiment, cookiePresent)).
Proof.
  intros Hi. cbn [scan].
  rewrite (bind_get _ _ _ _ _ property_cookie).
  rewrite (bind_get (Arr entries) (of_nat (length entries))) by done.
  rewrite (bind_Return _ _ _ _ _ (less_than_of_nat _ _ _)).
  rewrite bool_decide_eq_false_2 by lia. done.
Qed.

(** Entries without a marker are passed over, one turn each. *)
Lemma scan_plain (n fuel i : nat)
    (selectedExperiment : string) (cookiePresent : bool) (w : world) :
  (forall j, i <= j < i + n ->
     exists entry, entries !! j = Some entry /\ plain entry) ->
  scan (n + fuel) (Obj headers) i selectedExperiment cookiePresent w =
    scan fuel (Obj headers) (i + n) selectedExperiment cookiePresent w.
Proof.
  revert i. induction n as [|n IH]; intros i Hplain.
  - by rewrite Nat.add_0_r.
  - destruct (Hplain i) as (entry & Hentry & s & Hvalue & HA & HB); [lia |].
    change (S n + fuel) with (S (n + fuel)).
    rewrite (scan_step _ _ _ _ _ _ _ Hentry Hvalue).
    apply String_indexOf_negative in HA, HB. rewrite HA, HB.
    rewrite IH; [f_equal; lia |].
    intros j Hj. apply Hplain. lia.
Qed.

(** The loop over entries among which the first to hold a marker is at
    position [length before]. *)
Lemma scan_first_match (before after : list value) (entry : value) (s : string)
    (selectedExperiment : string) (cookiePresent : bool) (w : world) :
  entries = before ++ entry :: after ->
  Forall plain before ->
  entry_value entry = Some s ->
  contains s cookieExperimentA \/ contains s cookieExperimentB ->
  scan (S (length entries)) (Obj headers) 0 selectedExperiment cookiePresent w =
    if (0 <=? String_indexOf s cookieExperimentA)%Z then
      (logged w [LogLine "Experiment A cookie found" []],
       Return (cookieExperimentA, true))
    else
      (logged w [LogLine "Experiment B cookie found" []],
       Return (cookieExperimentB, true)).
Proof.
  intros Hsplit Hplain Hvalue Hmarker.
  replace (S (length entries)) with (length before + S (S (length after)))
    by (rewrite Hsplit, length_app; simpl; lia).
  rewrite scan_plain.
  - rewrite (scan_step _ (0 + length before) entry s); [| | done].
    + destruct (0 <=? String_indexOf s cookieExperimentA)%Z eqn:HA; [done |].
      apply String_indexOf_negative in HA.
      destruct Hmarker as [? | HB]; [done |].
      apply String_indexOf_nonneg in HB. by rewrite HB.
    + rewrite Hsplit. simpl. by rewrite list_lookup_middle.
  - intros j Hj. rewrite Hsplit, lookup_app_l by lia.
    destruct (lookup_lt_is_Some_2 before j) as [e He]; [lia |].
    exists e. split; [done |].
    rewrite Forall_forall in Hplain. apply Hplain. by eapply list_elem_of_lookup_2.
Qed.

(** The loop over entries none of which holds a marker. *)
Lemma scan_no_match
    (selectedExperiment : string) (cookiePresent : bool) (w : world) :
  Forall plain entries ->
  scan (S (length entries)) (Obj headers) 0 selectedExperiment cookiePresent w =
    (w, Return (selectedExperiment, cookiePresent)).
Proof.
  intros Hplain.
  replace (S (length entries)) with (length entries + 1) by lia.
  rewrite scan_plain.
  - by apply scan_end.
  - intros j Hj.
    destruct (lookup_lt_is_Some_2 entries j) as [e He]; [lia |].
    exists e. split; [done |].
    rewrite Forall_forall in Hplain. apply Hplain. by eapply list_elem_of_lookup_2.
Qed.
End Scan.

(** ** The two ways the handler ends *)

Lemma request_of_Some (event request : value) :
  request_of event = Some request ->
  exists records record cf,
    property event (Name "Records") = Some records /\
    property records (Index 0) = Some record /\
    property record (Name "cf") = Some cf /\
    property cf (Name "request") = Some request.
Proof.
  unfold request_of. intros H.
  destruct (property event (Name "Records")) as [records|] eqn:E1; [| done].
  simpl in H.
  destruct (property records (Index 0)) as [record|] eqn:E2; [| done].
  simpl in H.
  destruct (property record (Name "cf")) as [cf|] eqn:E3; [| done].
  simpl in H. by exists records, record, cf.
Qed.

Section Handler.
Context (event request headers cookie : value).
Hypothesis Hrequest : request_of event = Some request.
Hypothesis Hheaders : property request (Name "headers") = Some headers.
Hypothesis Hcookie : property headers (Name "cookie") = Some cookie.

(** The handler when the loop is left with a marker found. *)
Lemma handler_pass_through (w w1 : world) (selectedExperiment : string) :
  ToBoolean cookie = true ->
  scan (S (iterations cookie)) headers 0 cookieExperimentA false
       (request_logged w request) = (w1, Return (selectedExperiment, true)) ->
  handler event w =
    (found_world w1 request selectedExperiment, Return (Callback Null request)).
Proof.
  intros Htruthy Hscan.
  destruct (request_of_Some _ _ Hrequest) as (records & record & cf & H1 & H2 & H3 & H4).
  unfold handler.
  rewrite (bind_get _ _ _ _ _ H1), (bind_get _ _ _ _ _ H2).
  rewrite (bind_get _ _ _ _ _ H3), (bind_get _ _ _ _ _ H4).
  rewrite bind_console_log, (bind_get _ _ _ _ _ Hheaders).
  rewrite (bind_get _ _ _ _ _ Hcookie).
  rewrite Htruthy. fold (request_logged w request).
  rewrite (bind_Return _ _ _ _ _ Hscan). simpl negb. cbv iota.
  js_run. unfold ret, found_world. by rewrite logged_logged.
Qed.

(** The handler when the loop is not entered, or is left without a
    marker found. *)
Lemma handler_dice (w w1 : world) (selectedExperiment : string) :
  (if ToBoolean cookie
   then scan (S (iterations cookie)) headers 0 cookieExperimentA false
          (request_logged w request) = (w1, Return (selectedExperiment, false))
   else w1 = request_logged w request) ->
  handler event w =
    (dice_world w1, Return (Callback Null (dice_response (next_random w1)))).
Proof.
  intros Hscan.
  destruct (request_of_Some _ _ Hrequest) as (records & record & cf & H1 & H2 & H3 & H4).
  unfold handler.
  rewrite (bind_get _ _ _ _ _ H1), (bind_get _ _ _ _ _ H2).
  rewrite (bind_get _ _ _ _ _ H3), (bind_get _ _ _ _ _ H4).
  rewrite bind_console_log, (bind_get _ _ _ _ _ Hheaders).
  rewrite (bind_get _ _ _ _ _ Hcookie).
  fold (request_logged w request).
  match goal with
  | |- bind _ ?k _ = _ =>
      assert (k (selectedExperiment, false) w1 =
              (dice_world w1,
               Return (Callback Null (dice_response (next_random w1))))) as Hrest
  end.
  { simpl negb. cbv iota. js_run.
    unfold dice_world, dice_response, next_random. simpl.
    destruct (Qltb (random w1 (draws w1)) (3 # 4)) eqn:E; js_run;
      unfold bind, set, ret, console_log, logged, drawn; simpl;
      rewrite <- !app_assoc; reflexivity. }
  destruct (ToBoolean cookie).
  - by rewrite (bind_Return _ _ _ _ _ Hscan).
  - subst w1. by rewrite bind_ret.
Qed.
End Handler.

(** ** What every run of the handler satisfies *)

Lemma quiet_ret {A : Type} (a : A) : quiet (ret a).
Proof. intros w w' o [= <- _]. done. Qed.

Lemma quiet_throw {A : Type} (e : exn) : quiet (@throw A e).
Proof. intros w w' o [= <- _]. done. Qed.

Lemma quiet_bind {A B : Type} (c : M A) (k : A -> M B) :
  quiet c -> (forall a, quiet (k a)) -> quiet (bind c k).
Proof.
  intros Hc Hk w w' o. unfold bind.
  destruct (c w) as [w1 [a| | |]] eqn:E; destruct (Hc _ _ _ E) as [Hr Hd].
  - intros H. destruct (Hk _ _ _ _ H) as [Hr' Hd']. split; congruence.
  - intros [= <- _]. done.
  - intros [= <- _]. done.
  - intros [= <- _]. done.
Qed.

Lemma quiet_get (v : value) (k : key) : quiet (get v k).
Proof. unfold get. destruct (property v k); [apply quiet_ret | apply quiet_throw]. Qed.

Lemma quiet_less_than (i : nat) (v : value) : quiet (less_than i v).
Proof.
  destruct v as [| | |[]| | |]; try apply quiet_ret; by intros w w' o [= <- _].
Qed.

Lemma quiet_indexOf (v : value) (search : string) : quiet (indexOf v search).
Proof. destruct v; first [apply quiet_ret | apply quiet_throw]. Qed.

Lemma quiet_console_log (fmt : string) (args : list value) :
  quiet (console_log fmt args).
Proof. intros w w' o [= <- _]. done. Qed.

Create HintDb quiet.
#[local] Hint Resolve quiet_ret quiet_throw quiet_get quiet_less_than
  quiet_indexOf quiet_console_log : quiet.

(** The loop never calls [Math.random]. *)
Lemma quiet_scan (fuel : nat) (headers : value) (i : nat)
    (selectedExperiment : string) (cookiePresent : bool) :
  quiet (scan fuel headers i selectedExperiment cookiePresent).
Proof.
  revert i. induction fuel as [|fuel IH]; intros i.
  - by intros w w' o [= <- _].
  - cbn [scan].
    repeat first
      [ apply quiet_bind; [auto with quiet | intros ?]
      | match goal with |- quiet (if ?b then _ else _) => destruct b end
      | apply IH
      | auto with quiet ].
Qed.

Ltac js_read H x E :=
  match type of H with
  | bind (get ?v ?k) _ _ = _ =>
      destruct (property v k) as [x|] eqn:E;
      [ rewrite (bind_get _ _ _ _ _ E) in H
      | rewrite (bind_get_None _ _ _ _ E) in H; discriminate H ]
  end.

(** A run that ends normally has read the request of the event and calls
    back without an error, either with that request and no random draw,
    or with the response of the random path. *)
Lemma handler_Return (event : value) (w w' : world) (c : completion) :
  handler event w = (w', Return c) ->
  exists request,
    request_of event = Some request /\
    error c = Null /\
    ((result c = request /\ random w' = random w /\ draws w' = draws w) \/
     (result c = dice_response (next_random w) /\
      random w' = random w /\ draws w' = S (draws w))).
Proof.
  intros Hrun. pose proof Hrun as H. unfold handler in H.
  js_read H records E1. js_read H record E2. js_read H cf E3. js_read H request E4.
  assert (request_of event = Some request) as Hrequest.
  { unfold request_of. rewrite E1. simpl. rewrite E2. simpl. by rewrite E3. }
  exists request. split; [done |].
  rewrite bind_console_log in H. js_read H headers E5. js_read H cookie E6.
  fold (request_logged w request) in H.
  match type of H with
  | bind ?scanning ?k ?w0 = _ =>
      assert (quiet scanning) as Hquiet
        by (destruct (ToBoolean cookie); [apply quiet_scan | apply quiet_ret]);
      unfold bind at 1 in H;
      destruct (scanning w0) as [w1 [[selectedExperiment cookiePresent]| | |]] eqn:E;
      try discriminate H;
      destruct (Hquiet _ _ _ E) as [Hr Hd]
  end.
  clear H. destruct cookiePresent.
  - destruct (ToBoolean cookie) eqn:Htruthy; [| discriminate E].
    rewrite (handler_pass_through _ _ _ _ Hrequest E5 E6 _ _ _ Htruthy E) in Hrun.
    injection Hrun as <- <-. split; [done |]. left. done.
  - rewrite (handler_dice _ _ _ _ Hrequest E5 E6 w w1 selectedExperiment) in Hrun.
    + injection Hrun as <- <-. split; [done |]. right.
      unfold next_random. simpl. rewrite Hr, Hd. done.
    + destruct (ToBoolean cookie); [done |]. by injection E as <-.
Qed.

(** ** Requests of the data model *)

Lemma well_formed_entry_cases (entry : value) :
  well_formed_entry entry -> recognized entry \/ plain entry.
Proof.
  intros [s Hs].
  destruct (0 <=? String_indexOf s cookieExperimentA)%Z eqn:HA.
  { left. left. exists s. by rewrite <- String_indexOf_nonneg. }
  destruct (0 <=? String_indexOf s cookieExperimentB)%Z eqn:HB.
  { left. right. exists s. by rewrite <- String_indexOf_nonneg. }
  right. exists s. by rewrite <- !String_indexOf_negative.
Qed.

(** Among well-formed entries one of which holds a marker, there is a
    first one that does. *)
Lemma first_recognized (entries : list value) :
  Forall well_formed_entry entries ->
  Exists recognized entries ->
  exists before entry after,
    entries = before ++ entry :: after /\ Forall plain before /\ recognized entry.
Proof.
  induction 1 as [|e entries He Hrest IH]; intros Hex.
  - by apply Exists_nil in Hex.
  - destruct (well_formed_entry_cases e He) as [Hrec | Hplain].
    + by exists [], e, entries.
    + apply Exists_cons in Hex as [Hrec | Hex].
      * by exists [], e, entries.
      * destruct (IH Hex) as (before & entry & after & -> & Hbefore & Hentry).
        exists (e :: before), entry, after. split; [done |]. split; [| done].
        by constructor.
Qed.

Section Request.
Context (event request : value) (headers : gmap string value).
Hypothesis Hcarries : carries event request headers.

(** The cookie header holds a marker: the request is passed through. *)
Lemma handler_recognized (before after : list value) (entry : value) (s : string)
    (w : world) :
  headers !! "cookie" = Some (Arr (before ++ entry :: after)) ->
  Forall plain before ->
  entry_value entry = Some s ->
  contains s cookieExperimentA \/ contains s cookieExperimentB ->
  handler event w =
    (logged w (pass_trace request
                 (if (0 <=? String_indexOf s cookieExperimentA)%Z
                  then cookieExperimentA else cookieExperimentB)),
     Return (Callback Null request)).
Proof.
  intros Hcookie Hbefore Hs Hmarker. destruct Hcarries as [Hrequest Hheaders].
  assert (property (Obj headers) (Name "cookie") = Some (Arr (before ++ entry :: after)))
    as Hprop by (simpl; by rewrite Hcookie).
  pose proof (scan_first_match _ _ Hcookie before after entry s
                cookieExperimentA false (request_logged w request)
                eq_refl Hbefore Hs Hmarker) as Hscan.
  destruct (0 <=? String_indexOf s cookieExperimentA)%Z;
    rewrite (handler_pass_through _ _ _ _ Hrequest Hheaders Hprop _ _ _ eq_refl Hscan);
    unfold found_world, request_logged; by rewrite !logged_logged.
Qed.

(** No cookie header, or one whose entries hold no marker: the random
    path is taken. *)
Lemma handler_unassigned (w : world) :
  headers !! "cookie" = None \/
  (exists entries, headers !! "cookie" = Some (Arr entries) /\ Forall plain entries) ->
  handler event w =
    (dice_world (request_logged w request),
     Return (Callback Null (dice_response (next_random w)))).
Proof.
  intros Hcookie. destruct Hcarries as [Hrequest Hheaders].
  destruct Hcookie as [Hnone | (entries & Hsome & Hplain)].
  - assert (property (Obj headers) (Name "cookie") = Some Undefined)
      as Hprop by (simpl; by rewrite Hnone).
    by rewrite (handler_dice _ _ _ _ Hrequest Hheaders Hprop w
                  (request_logged w request) cookieExperimentA).
  - assert (property (Obj headers) (Name "cookie") = Some (Arr entries))
      as Hprop by (simpl; by rewrite Hsome).
    rewrite (handler_dice _ _ _ _ Hrequest Hheaders Hprop w
               (request_logged w request) cookieExperimentA); [done |].
    cbn [ToBoolean iterations]. by apply scan_no_match.
Qed.
End Request.

Lemma plain_or_recognized (entries : list value) :
  Forall well_formed_entry entries ->
  Forall plain entries \/ Exists recognized entries.
Proof.
  induction 1 as [|e entries He _ IH]; [by left |].
  destruct (well_formed_entry_cases e He) as [Hrec | Hplain].
  - right. by left.
  - destruct IH as [IH | IH]; [left; by constructor | right; by right].
Qed.

Lemma carries_event_of (headers : gmap string value) :
  carries (event_of (request_with headers)) (request_with headers) headers.
Proof. split; reflexivity. Qed.


(** ** The iteration budget *)

Lemma indices_in_object (props : gmap string value) (i : nat) :
  (forall j, j < i -> is_Some (props !! pretty j)) -> i <= size props.
Proof.
  intros Hall.
  assert (NoDup (pretty <$> seq 0 i)) as Hnodup
    by apply (NoDup_fmap_2 _), NoDup_seq.
  apply (size_list_to_set (C := gset string)) in Hnodup.
  rewrite length_fmap, length_seq in Hnodup. rewrite <- Hnodup.
  rewrite <- (size_dom (D := gset string) props).
  apply subseteq_size. intros k Hk.
  apply elem_of_list_to_set, list_elem_of_fmap in Hk as (j & -> & Hj).
  apply elem_of_seq in Hj. apply elem_of_dom, Hall. lia.
Qed.

Lemma visited_bound (cookie : value) (i : nat) :
  visited cookie i -> i <= iterations cookie.
Proof.
  destruct cookie; simpl; try lia. apply indices_in_object.
Qed.

Lemma less_than_outcome (i : nat) (v : value) (w : world) :
  exists o, less_than i v w = (w, o) /\ o <> OutOfFuel.
Proof. destruct v as [| | |[]| | |]; by eexists. Qed.

Lemma less_than_true_bound (i n : nat) (w w' : world) :
  less_than i (of_nat n) w = (w', Return true) -> i < n.
Proof.
  rewrite less_than_of_nat. intros [= _ H]. by apply bool_decide_eq_true in H.
Qed.

Lemma bind_indexOf {B : Type} (v : value) (search : string) (k : Z -> M B) (w : world) :
  bind (indexOf v search) k w =
    match v with
    | Str s => k (String_indexOf s search) w
    | Arr elems => k (Array_indexOf elems search) w
    | _ => (w, Throw TypeError)
    end.
Proof. by destruct v. Qed.

(** The loop ends before its budget is spent: a turn that goes on to the
    next index has read an element of the cookie header, and there are no
    more of them than the budget counts. *)
Lemma scan_within_fuel (headers cookie : value) (fuel i : nat)
    (selectedExperiment : string) (cookiePresent : bool) (w : world) :
  property headers (Name "cookie") = Some cookie ->
  visited cookie i ->
  iterations cookie < fuel + i ->
  (scan fuel headers i selectedExperiment cookiePresent w).2 <> OutOfFuel.
Proof.
  intros Hcookie. revert i. induction fuel as [|fuel IH]; intros i Hvisited Hfuel.
  { apply visited_bound in Hvisited. lia. }
  cbn [scan]. rewrite (bind_get _ _ _ _ _ Hcookie).
  destruct (property cookie (Name "length")) as [len|] eqn:Hlen;
    [rewrite (bind_get _ _ _ _ _ Hlen) | by rewrite (bind_get_None _ _ _ _ Hlen)].
  unfold bind at 1.
  destruct (less_than_outcome i len w) as (more & Hless & Hmore). rewrite Hless.
  destruct more as [[]| | |]; try done.
  rewrite (bind_get _ _ _ _ _ Hcookie).
  destruct (property cookie (Index i)) as [entry|] eqn:Hentry;
    [rewrite (bind_get _ _ _ _ _ Hentry) | by rewrite (bind_get_None _ _ _ _ Hentry)].
  destruct (property entry (Name "value")) as [v|] eqn:Hv;
    [rewrite (bind_get _ _ _ _ _ Hv) | by rewrite (bind_get_None _ _ _ _ Hv)].
  rewrite bind_indexOf.
  destruct v; try (by simpl).
  all: match goal with |- context [if ?b then _ else _] => destruct b end; try (by simpl).
  all: rewrite (bind_get _ _ _ _ _ Hcookie), (bind_get _ _ _ _ _ Hentry),
         (bind_get _ _ _ _ _ Hv), bind_indexOf.
  all: match goal with |- context [if ?b then _ else _] => destruct b end; try (by simpl).
  all: apply IH; [| lia].
  all: destruct cookie as [| | | |s'|elems'|props]; simpl in Hlen, Hentry; try done.
  all: try (injection Hlen as <-; simpl in Hless; discriminate Hless).
  all: try (injection Hlen as <-; apply less_than_true_bound in Hless; simpl; lia).
  all: simpl; intros j Hj; destruct (decide (j = i)) as [->|]; [| apply Hvisited; lia].
  all: injection Hentry as <-; destruct (props !! pretty i); [done | discriminate Hv].
Qed.

Ltac js_run_in H :=
  repeat (cbv beta in H;
          first [ rewrite bind_assoc in H
                | rewrite bind_console_log in H
                | rewrite bind_Math_random in H
                | rewrite bind_ret in H ]).

Lemma visited_0 (cookie : value) : visited cookie 0.
Proof. destruct cookie; simpl; try lia. Qed.

(** The handler never ends for want of iterations: the budget in its
    definition is there for the recursion only. *)
Lemma handler_within_fuel (event : value) (w : world) :
  (handler event w).2 <> OutOfFuel.
Proof.
  destruct (handler event w) as [w' o] eqn:H. simpl. intros ->.
  unfold handler in H.
  js_read H records E1. js_read H record E2. js_read H cf E3. js_read H request E4.
  rewrite bind_console_log in H. js_read H headers E5. js_read H cookie E6.
  destruct (ToBoolean cookie).
  - unfold bind at 1 in H.
    match type of H with
    | match ?run with _ => _ end = _ =>
        assert (run.2 <> OutOfFuel) as Hscan
          by (apply (scan_within_fuel _ cookie); [done | apply visited_0 | lia]);
        destruct run as [w1 [[sel present]| | |]]; [| done | done | done]
    end.
    destruct present; simpl negb in H; cbv iota in H; js_run_in H.
    + discriminate H.
    + destruct (Qltb _ _) in H; js_run_in H; discriminate H.
  - rewrite bind_ret in H. simpl negb in H. cbv iota beta in H. js_run_in H.
    destruct (Qltb _ _) in H; js_run_in H; discriminate H.
Qed.

(** ** The properties *)

(** C1: a request whose cookie header has an entry that contains
    [X-Experiment-Name=A] or [X-Experiment-Name=B] is handed back as it
    came: the callback receives the request itself, no random draw is made,
    and the console shows the marker recognized, which an entry holds (it
    is that of the first entry that holds one). *)
Theorem recognized_cookie_passes_through
    (event request : value) (headers : gmap string value)
    (entries : list value) (w : world) :
  carries event request headers ->
  headers !! "cookie" = Some (Arr entries) ->
  Forall well_formed_entry entries ->
  Exists recognized entries ->
  exists marker,
    (marker = cookieExperimentA \/ marker = cookieExperimentB) /\
    Exists (holds marker) entries /\
    handler event w =
      (logged w (pass_trace request marker), Return (Callback Null request)).
Proof.
  intros Hcarries Hcookie Hwf Hex.
  destruct (first_recognized entries Hwf Hex)
    as (before & entry & after & -> & Hbefore & Hentry).
  assert (exists s, entry_value entry = Some s /\
            (contains s cookieExperimentA \/ contains s cookieExperimentB))
    as (s & Hs & Hmarker).
  { destruct Hentry as [(s & Hs & H) | (s & Hs & H)]; exists s; auto. }
  eexists. split; [| split; [| by eapply handler_recognized]].
  - destruct (0 <=? String_indexOf s cookieExperimentA)%Z; auto.
  - apply Exists_app. right. apply Exists_cons_hd. exists s. split; [done |].
    destruct (0 <=? String_indexOf s cookieExperimentA)%Z eqn:HA.
    + by apply String_indexOf_nonneg.
    + apply String_indexOf_negative in HA. by destruct Hmarker.
Qed.

Lemma recognized_cookie_passes_through_witness :
  exists marker,
    (marker = cookieExperimentA \/ marker = cookieExperimentB) /\
    Exists (holds marker)
      [cookie_entry "theme=dark"; cookie_entry "X-Experiment-Name=B; lang=en"] /\
    handler (event_of (request_with cookies_B)) (world_of 0) =
      (logged (world_of 0) (pass_trace (request_with cookies_B) marker),
       Return (Callback Null (request_with cookies_B))).
Proof.
  apply (recognized_cookie_passes_through
           (event_of (request_with cookies_B)) (request_with cookies_B) cookies_B
           [cookie_entry "theme=dark"; cookie_entry "X-Experiment-Name=B; lang=en"]
           (world_of 0)).
  - apply carries_event_of.
  - reflexivity.
  - repeat constructor; eexists; reflexivity.
  - apply Exists_cons_tl, Exists_cons_hd. right.
    eexists. split; [reflexivity |]. exists "", "; lang=en". reflexivity.
Defined.

(** C2: a request without a cookie header is answered with a redirect:
    status 302, description Found, a Set-Cookie entry that carries one of
    the two markers and a Location entry that goes with it, [/] with the A
    marker and [/blue/] with the B marker. *)
Theorem no_cookie_header_redirects
    (event request : value) (headers : gmap string value) (w : world) :
  carries event request headers ->
  headers !! "cookie" = None ->
  exists response,
    (handler event w).2 = Return (Callback Null response) /\
    field response "status" = Some (Str "302") /\
    field response "statusDescription" = Some (Str "Found") /\
    ((header response "set-cookie" = Some ("Set-Cookie", "X-Experiment-Name=A") /\
      header response "location" = Some ("Location", "/")) \/
     (header response "set-cookie" = Some ("Set-Cookie", "X-Experiment-Name=B") /\
      header response "location" = Some ("Location", "/blue/"))).
Proof.
  intros Hcarries Hcookie.
  rewrite (handler_unassigned _ _ _ Hcarries w) by auto.
  exists (dice_response (next_random w)). split; [done |].
  unfold dice_response. destruct (Qltb (next_random w) (3 # 4)).
  - split; [done |]. split; [done |]. left. split; reflexivity.
  - split; [done |]. split; [done |]. right. split; reflexivity.
Qed.

Lemma no_cookie_header_redirects_witness :
  exists response,
    (handler (event_of (request_with no_cookies)) (world_of (9 # 10))).2 =
      Return (Callback Null response) /\
    field response "status" = Some (Str "302") /\
    field response "statusDescription" = Some (Str "Found") /\
    ((header response "set-cookie" = Some ("Set-Cookie", "X-Experiment-Name=A") /\
      header response "location" = Some ("Location", "/")) \/
     (header response "set-cookie" = Some ("Set-Cookie", "X-Experiment-Name=B") /\
      header response "location" = Some ("Location", "/blue/"))).
Proof.
  apply (no_cookie_header_redirects
           (event_of (request_with no_cookies)) (request_with no_cookies) no_cookies
           (world_of (9 # 10))).
  - apply carries_event_of.
  - reflexivity.
Defined.

(** C3: when no marker is found, the draw [r] of [Math.random] decides:
    the cookie set is the A marker exactly when [r < 0.75] and the B marker
    exactly when not; a draw equal to 0.75 gives B.  This holds for every
    [r], so for every [r] in [0, 1). *)
Theorem three_quarters_split
    (event request : value) (headers : gmap string value) (w : world) :
  carries event request headers ->
  unassigned headers ->
  exists response,
    (handler event w).2 = Return (Callback Null response) /\
    (header response "set-cookie" = Some ("Set-Cookie", cookieExperimentA)
       <-> (next_random w < 3 # 4)%Q) /\
    (header response "set-cookie" = Some ("Set-Cookie", cookieExperimentB)
       <-> ~ (next_random w < 3 # 4)%Q) /\
    ((next_random w == 3 # 4)%Q ->
       header response "set-cookie" = Some ("Set-Cookie", cookieExperimentB)).
Proof.
  intros Hcarries Hcookie.
  rewrite (handler_unassigned _ _ _ Hcarries w) by done.
  exists (dice_response (next_random w)). split; [done |].
  unfold dice_response.
  destruct (Qltb (next_random w) (3 # 4)) eqn:E.
  - apply Qltb_lt in E. split; [done |]. split.
    + split; [done | intros H; by destruct H].
    + intros Heq. rewrite Heq in E. by apply Qlt_irrefl in E.
  - assert (~ (next_random w < 3 # 4)%Q) as E'
      by (rewrite <- Qltb_lt; congruence).
    split; [| done]. split; [done | intros H; by destruct E'].
Qed.

Lemma three_quarters_split_witness :
  exists response,
    (handler (event_of (request_with plain_cookies)) (world_of (3 # 4))).2 =
      Return (Callback Null response) /\
    (header response "set-cookie" = Some ("Set-Cookie", cookieExperimentA)
       <-> (next_random (world_of (3 # 4)) < 3 # 4)%Q) /\
    (header response "set-cookie" = Some ("Set-Cookie", cookieExperimentB)
       <-> ~ (next_random (world_of (3 # 4)) < 3 # 4)%Q) /\
    ((next_random (world_of (3 # 4)) == 3 # 4)%Q ->
       header response "set-cookie" = Some ("Set-Cookie", cookieExperimentB)).
Proof.
  apply (three_quarters_split
           (event_of (request_with plain_cookies)) (request_with plain_cookies)
           plain_cookies (world_of (3 # 4))).
  - apply carries_event_of.
  - right. eexists. split; [reflexivity |].
    repeat constructor; (eexists; split; [reflexivity |];
      split; apply String_indexOf_negative; reflexivity).
Defined.

(** C4: the cookie a redirect sets is honoured afterwards.  The redirect
    answering a request without a cookie header sets a cookie; any later
    request that presents this cookie as its only cookie entry is passed
    through unchanged, the console shows the same marker as selected, and
    the random source is left as it was, whatever it would have drawn. *)
Theorem sticky_assignment
    (event request : value) (headers : gmap string value) (w : world) :
  carries event request headers ->
  headers !! "cookie" = None ->
  exists response cookie,
    (handler event w).2 = Return (Callback Null response) /\
    header response "set-cookie" = Some ("Set-Cookie", cookie) /\
    forall (event' request' : value) (headers' : gmap string value)
           (entry : value) (w' : world),
      carries event' request' headers' ->
      headers' !! "cookie" = Some (Arr [entry]) ->
      entry_value entry = Some cookie ->
      handler event' w' =
        (logged w' (pass_trace request' cookie), Return (Callback Null request')).
Proof.
  intros Hcarries Hcookie.
  rewrite (handler_unassigned _ _ _ Hcarries w) by (by left).
  exists (dice_response (next_random w)).
  unfold dice_response. destruct (Qltb (next_random w) (3 # 4)).
  - exists cookieExperimentA. split; [done |]. split; [reflexivity |].
    intros event' request' headers' entry w' Hcarries' Hcookie' Hentry.
    rewrite (handler_recognized _ _ _ Hcarries' [] [] entry cookieExperimentA);
      [reflexivity | done | constructor | done |].
    left. by exists "", "".
  - exists cookieExperimentB. split; [done |]. split; [reflexivity |].
    intros event' request' headers' entry w' Hcarries' Hcookie' Hentry.
    rewrite (handler_recognized _ _ _ Hcarries' [] [] entry cookieExperimentB);
      [reflexivity | done | constructor | done |].
    right. by exists "", "".
Qed.

Lemma sticky_assignment_witness :
  exists response cookie,
    (handler (event_of (request_with no_cookies)) (world_of (4 # 5))).2 =
      Return (Callback Null response) /\
    header response "set-cookie" = Some ("Set-Cookie", cookie) /\
    forall (event' request' : value) (headers' : gmap string value)
           (entry : value) (w' : world),
      carries event' request' headers' ->
      headers' !! "cookie" = Some (Arr [entry]) ->
      entry_value entry = Some cookie ->
      handler event' w' =
        (logged w' (pass_trace request' cookie), Return (Callback Null request')).
Proof.
  apply (sticky_assignment
           (event_of (request_with no_cookies)) (request_with no_cookies) no_cookies
           (world_of (4 # 5))).
  - apply carries_event_of.
  - reflexivity.
Defined.

(** C5 does not hold of every event.  An event without the record
    nesting, and an event whose one cookie entry has no [value]: on both
    the handler throws. *)
Lemma malformed_event_throws :
  (handler (Obj ∅) (world_of (1 # 2))).2 = Throw TypeError /\
  (handler (event_of (request_with cookies_without_value)) (world_of (1 # 2))).2 =
    Throw TypeError.
Proof. split; vm_compute; reflexivity. Qed.

(** C5, as the code has it: on an event that has the record and request
    nesting and a header map, and whose cookie header is absent or a list
    of entries with a string value each, the handler does not throw; it
    calls back with no error and with the request or with the redirect of
    the random path.  Nothing in the handler catches a fault, so the
    guarantee does not reach malformed events. *)
Theorem well_formed_event_completes
    (event request : value) (headers : gmap string value) (w : world) :
  carries event request headers ->
  well_formed_cookies headers ->
  exists response,
    (handler event w).2 = Return (Callback Null response) /\
    (response = request \/ response = dice_response (next_random w)).
Proof.
  intros Hcarries [Hnone | (entries & Hsome & Hwf)].
  - rewrite (handler_unassigned _ _ _ Hcarries w) by (by left). eauto.
  - destruct (plain_or_recognized entries Hwf) as [Hplain | Hex].
    + rewrite (handler_unassigned _ _ _ Hcarries w) by (right; eauto). eauto.
    + destruct (first_recognized entries Hwf Hex)
        as (before & entry & after & -> & Hbefore & Hentry).
      assert (exists s, entry_value entry = Some s /\
                (contains s cookieExperimentA \/ contains s cookieExperimentB))
        as (s & Hs & Hmarker).
      { destruct Hentry as [(s & Hs & H) | (s & Hs & H)]; exists s; auto. }
      rewrite (handler_recognized _ _ _ Hcarries before after entry s) by done.
      eauto.
Qed.

Lemma well_formed_event_completes_witness :
  exists response,
    (handler (event_of (request_with cookies_B)) (world_of (1 # 2))).2 =
      Return (Callback Null response) /\
    (response = request_with cookies_B \/
     response = dice_response (next_random (world_of (1 # 2)))).
Proof.
  apply (well_formed_event_completes
           (event_of (request_with cookies_B)) (request_with cookies_B) cookies_B
           (world_of (1 # 2))).
  - apply carries_event_of.
  - right. eexists. split; [reflexivity |].
    repeat constructor; eexists; reflexivity.
Defined.

(** C6 does not hold as written.  With B, then A, then B in the cookie
    header, an entry holds the A marker and a later entry holds the B
    marker, yet the loop leaves with B selected: the entry that decides is
    the first one, which holds B. *)
Lemma earlier_A_later_B_decided_B :
  (exists (i j : nat) (entry entry' : value),
     i < j /\
     [cookie_entry "X-Experiment-Name=B"; cookie_entry "X-Experiment-Name=A";
      cookie_entry "X-Experiment-Name=B"] !! i = Some entry /\
     holds cookieExperimentA entry /\
     [cookie_entry "X-Experiment-Name=B"; cookie_entry "X-Experiment-Name=A";
      cookie_entry "X-Experiment-Name=B"] !! j = Some entry' /\
     holds cookieExperimentB entry') /\
  cookies_B_A_B !! "cookie" =
    Some (Arr [cookie_entry "X-Experiment-Name=B"; cookie_entry "X-Experiment-Name=A";
               cookie_entry "X-Experiment-Name=B"]) /\
  (scan 4 (Obj cookies_B_A_B) 0 cookieExperimentA false
        (request_logged (world_of (9 # 10)) (request_with cookies_B_A_B))).2 =
    Return (cookieExperimentB, true) /\
  cookieExperimentB <> cookieExperimentA /\
  handler (event_of (request_with cookies_B_A_B)) (world_of (9 # 10)) =
    (logged (world_of (9 # 10)) (pass_trace (request_with cookies_B_A_B) cookieExperimentB),
     Return (Callback Null (request_with cookies_B_A_B))).
Proof.
  split.
  { exists 1, 2, (cookie_entry "X-Experiment-Name=A"), (cookie_entry "X-Experiment-Name=B").
    split; [lia |]. split; [reflexivity |]. split.
    - eexists. split; [reflexivity |]. exists "", "". reflexivity.
    - split; [reflexivity |]. eexists. split; [reflexivity |]. exists "", "". reflexivity. }
  split; [reflexivity |]. split; [vm_compute; reflexivity |].
  split; [discriminate |]. vm_compute. reflexivity.
Qed.

(** C6, as the code has it: the entry that decides is the first entry of
    the cookie header that holds a marker.  When it holds the A marker the
    decision is A, and when it holds the B marker and not the A marker the
    decision is B: the loop leaves at that entry with the marker selected
    and the cookie found, the request is passed through, and the entries
    after it, whatever they are and whichever marker they hold, are not
    looked at. *)
Theorem first_recognized_entry_decides
    (event request : value) (headers : gmap string value)
    (before after : list value) (entry : value) (s : string) (w : world) :
  carries event request headers ->
  headers !! "cookie" = Some (Arr (before ++ entry :: after)) ->
  Forall plain before ->
  entry_value entry = Some s ->
  contains s cookieExperimentA \/ contains s cookieExperimentB ->
  exists marker,
    (contains s cookieExperimentA -> marker = cookieExperimentA) /\
    (~ contains s cookieExperimentA -> marker = cookieExperimentB) /\
    scan (S (length (before ++ entry :: after))) (Obj headers) 0
         cookieExperimentA false (request_logged w request) =
      (logged (request_logged w request) [found_line marker], Return (marker, true)) /\
    handler event w =
      (logged w (pass_trace request marker), Return (Callback Null request)).
Proof.
  intros Hcarries Hcookie Hbefore Hs Hmarker.
  rewrite (handler_recognized _ _ _ Hcarries before after entry s) by done.
  rewrite (scan_first_match _ _ Hcookie before after entry s) by done.
  destruct (0 <=? String_indexOf s cookieExperimentA)%Z eqn:HA.
  - apply String_indexOf_nonneg in HA. exists cookieExperimentA.
    split; [done |]. split; [intros H; by destruct H |]. by split.
  - apply String_indexOf_negative in HA. exists cookieExperimentB.
    split; [intros H; by destruct HA |]. split; [done |]. by split.
Qed.

Lemma first_recognized_entry_decides_witness :
  exists marker,
    (contains "X-Experiment-Name=A" cookieExperimentA -> marker = cookieExperimentA) /\
    (~ contains "X-Experiment-Name=A" cookieExperimentA -> marker = cookieExperimentB) /\
    scan 4 (Obj cookies_A_then_B) 0 cookieExperimentA false
         (request_logged (world_of (9 # 10)) (request_with cookies_A_then_B)) =
      (logged (request_logged (world_of (9 # 10)) (request_with cookies_A_then_B))
         [found_line marker],
       Return (marker, true)) /\
    handler (event_of (request_with cookies_A_then_B)) (world_of (9 # 10)) =
      (logged (world_of (9 # 10)) (pass_trace (request_with cookies_A_then_B) marker),
       Return (Callback Null (request_with cookies_A_then_B))).
Proof.
  apply (first_recognized_entry_decides
           (event_of (request_with cookies_A_then_B)) (request_with cookies_A_then_B)
           cookies_A_then_B
           [cookie_entry "theme=dark"] [cookie_entry "X-Experiment-Name=B"]
           (cookie_entry "X-Experiment-Name=A") "X-Experiment-Name=A" (world_of (9 # 10))).
  - apply carries_event_of.
  - reflexivity.
  - repeat constructor. eexists. split; [reflexivity |].
    split; apply String_indexOf_negative; reflexivity.
  - reflexivity.
  - left. exists "", "". reflexivity.
Defined.

(** The entry that decides is the first to hold a marker, whichever it
    is: with B, then A, then B, the decision is B. *)
Example first_match_may_be_B :
  handler (event_of (request_with cookies_B_A_B)) (world_of (9 # 10)) =
    (logged (world_of (9 # 10)) (pass_trace (request_with cookies_B_A_B) cookieExperimentB),
     Return (Callback Null (request_with cookies_B_A_B))).
Proof. vm_compute. reflexivity. Qed.

(** C7 does not hold as written.  The redirect answering a request
    without a cookie header is not the documented descriptor, whatever
    location and cookie are put in it: its header map has no key
    [Location]. *)
Lemma redirect_is_not_documented :
  ~ exists location cookie,
      (handler (event_of (request_with no_cookies)) (world_of (1 # 2))).2 =
        Return (Callback Null (documented_redirect location cookie)).
Proof.
  intros (location & cookie & H).
  rewrite (handler_unassigned _ _ _ (carries_event_of _)) in H by (by left).
  apply (f_equal (fun o => match o with
                           | Return c => header (result c) "Location"
                           | _ => None
                           end)) in H.
  vm_compute in H. discriminate H.
Qed.

(** C7, as the code has it: a run that ends normally either hands back
    the request without a draw, or has drawn once and calls back with
    exactly the descriptor [redirect]: status 302, description Found, and a
    header map with the two keys [location] and [set-cookie] (in lower
    case), each holding one entry, [{key: Location, value}] with [/] or
    [/blue/] and [{key: Set-Cookie, value}] with the marker that goes
    with it. *)
Theorem redirect_is_the_descriptor (event : value) (w : world) (c : completion) :
  (handler event w).2 = Return c ->
  (request_of event = Some (result c) /\ draws (handler event w).1 = draws w) \/
  (draws (handler event w).1 = S (draws w) /\
   (result c = redirect "/" "X-Experiment-Name=A" \/
    result c = redirect "/blue/" "X-Experiment-Name=B")).
Proof.
  destruct (handler event w) as [w' o] eqn:Hrun. simpl. intros ->.
  destruct (handler_Return _ _ _ _ Hrun)
    as (request & Hrequest & _ & [(Hres & _ & Hd) | (Hres & _ & Hd)]).
  - left. by rewrite Hres.
  - right. split; [done |]. rewrite Hres. unfold dice_response.
    destruct (Qltb (next_random w) (3 # 4)); auto.
Qed.

Lemma redirect_is_the_descriptor_witness :
  (request_of (event_of (request_with no_cookies)) =
     Some (result (Callback Null (redirect "/" "X-Experiment-Name=A"))) /\
   draws (handler (event_of (request_with no_cookies)) (world_of (1 # 2))).1 =
     draws (world_of (1 # 2))) \/
  (draws (handler (event_of (request_with no_cookies)) (world_of (1 # 2))).1 =
     S (draws (world_of (1 # 2))) /\
   (result (Callback Null (redirect "/" "X-Experiment-Name=A")) =
      redirect "/" "X-Experiment-Name=A" \/
    result (Callback Null (redirect "/" "X-Experiment-Name=A")) =
      redirect "/blue/" "X-Experiment-Name=B")).
Proof.
  apply (redirect_is_the_descriptor
           (event_of (request_with no_cookies)) (world_of (1 # 2))
           (Callback Null (redirect "/" "X-Experiment-Name=A"))).
  vm_compute. reflexivity.
Defined.

(** C8: a cookie header that is absent, or an empty list, or a list of
    entries whose strings (empty ones included) contain no marker, is not a
    fault: the handler draws once and calls back with the redirect of the
    random path, the very completion it reaches on any request that has no
    cookie header at all. *)
Theorem no_marker_is_no_error
    (event request : value) (headers : gmap string value) (w : world) :
  carries event request headers ->
  headers !! "cookie" = None \/
  headers !! "cookie" = Some (Arr []) \/
  (exists entries, headers !! "cookie" = Some (Arr entries) /\ Forall plain entries) ->
  (handler event w).2 = Return (Callback Null (dice_response (next_random w))) /\
  draws (handler event w).1 = S (draws w) /\
  forall (event' request' : value) (headers' : gmap string value),
    carries event' request' headers' ->
    headers' !! "cookie" = None ->
    (handler event' w).2 = (handler event w).2.
Proof.
  intros Hcarries Hcookie.
  assert (unassigned headers) as Hunassigned.
  { destruct Hcookie as [H | [H | H]]; [by left | | by right].
    right. exists []. by split. }
  rewrite (handler_unassigned _ _ _ Hcarries w Hunassigned).
  split; [done |]. split; [done |].
  intros event' request' headers' Hcarries' Hnone.
  by rewrite (handler_unassigned _ _ _ Hcarries' w) by (by left).
Qed.

Lemma no_marker_is_no_error_witness :
  (handler (event_of (request_with plain_cookies)) (world_of (1 # 4))).2 =
    Return (Callback Null (dice_response (next_random (world_of (1 # 4))))) /\
  draws (handler (event_of (request_with plain_cookies)) (world_of (1 # 4))).1 =
    S (draws (world_of (1 # 4))) /\
  forall (event' request' : value) (headers' : gmap string value),
    carries event' request' headers' ->
    headers' !! "cookie" = None ->
    (handler event' (world_of (1 # 4))).2 =
    (handler (event_of (request_with plain_cookies)) (world_of (1 # 4))).2.
Proof.
  apply (no_marker_is_no_error
           (event_of (request_with plain_cookies)) (request_with plain_cookies)
           plain_cookies (world_of (1 # 4))).
  - apply carries_event_of.
  - right. right. eexists. split; [reflexivity |].
    repeat constructor; (eexists; split; [reflexivity |];
      split; apply String_indexOf_negative; reflexivity).
Defined.

(** C9: an entry whose string contains both markers is recognized as A
    wherever the two occur in it, the A marker being searched for first. *)
Theorem marker_A_is_tested_first
    (event request : value) (headers : gmap string value)
    (before after : list value) (entry : value) (s : string) (w : world) :
  carries event request headers ->
  headers !! "cookie" = Some (Arr (before ++ entry :: after)) ->
  Forall plain before ->
  entry_value entry = Some s ->
  contains s cookieExperimentA ->
  contains s cookieExperimentB ->
  handler event w =
    (logged w (pass_trace request cookieExperimentA), Return (Callback Null request)).
Proof.
  intros Hcarries Hcookie Hbefore Hs HA HB.
  rewrite (handler_recognized _ _ _ Hcarries before after entry s) by auto.
  apply String_indexOf_nonneg in HA. by rewrite HA.
Qed.

Lemma marker_A_is_tested_first_witness :
  handler (event_of (request_with cookies_both)) (world_of (9 # 10)) =
    (logged (world_of (9 # 10)) (pass_trace (request_with cookies_both) cookieExperimentA),
     Return (Callback Null (request_with cookies_both))).
Proof.
  apply (marker_A_is_tested_first
           (event_of (request_with cookies_both)) (request_with cookies_both)
           cookies_both
           [] [] (cookie_entry "X-Experiment-Name=B; X-Experiment-Name=A")
           "X-Experiment-Name=B; X-Experiment-Name=A").
  - apply carries_event_of.
  - reflexivity.
  - constructor.
  - reflexivity.
  - exists "X-Experiment-Name=B; ", "". reflexivity.
  - exists "", "; X-Experiment-Name=A". reflexivity.
Defined.

(** C10: whatever the event, a run that ends normally calls back with the
    request of the event or with a redirect whose Location and Set-Cookie
    entries go together: the location is [/blue/] exactly when the cookie
    is the B marker, and [/] exactly when it is the A marker. *)
Theorem location_follows_cookie (event : value) (w : world) (c : completion) :
  (handler event w).2 = Return c ->
  request_of event = Some (result c) \/
  exists location cookie,
    header (result c) "location" = Some ("Location", location) /\
    header (result c) "set-cookie" = Some ("Set-Cookie", cookie) /\
    (location = "/blue/" <-> cookie = "X-Experiment-Name=B") /\
    (location = "/" <-> cookie = "X-Experiment-Name=A").
Proof.
  destruct (handler event w) as [w' o] eqn:Hrun. simpl. intros ->.
  destruct (handler_Return _ _ _ _ Hrun)
    as (request & Hrequest & _ & [(Hres & _) | (Hres & _)]).
  - left. by rewrite Hres.
  - right. rewrite Hres. unfold dice_response.
    destruct (Qltb (next_random w) (3 # 4)).
    + exists "/", cookieExperimentA. by repeat split.
    + exists groupBUri, cookieExperimentB. by repeat split.
Qed.

Lemma location_follows_cookie_witness :
  request_of (event_of (request_with no_cookies)) =
    Some (result (Callback Null (redirect "/blue/" "X-Experiment-Name=B"))) \/
  exists location cookie,
    header (result (Callback Null (redirect "/blue/" "X-Experiment-Name=B"))) "location" =
      Some ("Location", location) /\
    header (result (Callback Null (redirect "/blue/" "X-Experiment-Name=B"))) "set-cookie" =
      Some ("Set-Cookie", cookie) /\
    (location = "/blue/" <-> cookie = "X-Experiment-Name=B") /\
    (location = "/" <-> cookie = "X-Experiment-Name=A").
Proof.
  apply (location_follows_cookie
           (event_of (request_with no_cookies)) (world_of (3 # 4))
           (Callback Null (redirect "/blue/" "X-Experiment-Name=B"))).
  vm_compute. reflexivity.
Defined.

(** ** The loop on any header value *)

(** However the loop ends, it has written at most the line of the marker
    it found: it leaves with a marker only after writing that line, and
    otherwise with the variables and the world as it got them. *)
Lemma scan_outcome (fuel : nat) (headers : value) (i : nat)
    (selectedExperiment : string) (cookiePresent : bool) (w w' : world)
    (o : outcome (string * bool)) :
  scan fuel headers i selectedExperiment cookiePresent w = (w', o) ->
  match o with
  | Return (selected, present) =>
      (present = true /\
       (selected = cookieExperimentA \/ selected = cookieExperimentB) /\
       w' = logged w [found_line selected]) \/
      (selected = selectedExperiment /\ present = cookiePresent /\ w' = w)
  | _ => w' = w
  end.
Proof.
  revert i. induction fuel as [|fuel IH]; intros i.
  { by intros [= <- <-]. }
  cbn [scan].
  destruct (property headers (Name "cookie")) as [cookie|] eqn:Hcookie;
    [rewrite (bind_get _ _ _ _ _ Hcookie)
    | rewrite (bind_get_None _ _ _ _ Hcookie); by intros [= <- <-]].
  destruct (property cookie (Name "length")) as [len|] eqn:Hlen;
    [rewrite (bind_get _ _ _ _ _ Hlen)
    | rewrite (bind_get_None _ _ _ _ Hlen); by intros [= <- <-]].
  unfold bind at 1.
  destruct (less_than_outcome i len w) as (more & Hless & Hmore). rewrite Hless.
  destruct more as [[]| | |]; try (by intros [= <- <-]).
  - rewrite (bind_get _ _ _ _ _ Hcookie).
    destruct (property cookie (Index i)) as [entry|] eqn:Hentry;
      [rewrite (bind_get _ _ _ _ _ Hentry)
      | rewrite (bind_get_None _ _ _ _ Hentry); by intros [= <- <-]].
    destruct (property entry (Name "value")) as [v|] eqn:Hv;
      [rewrite (bind_get _ _ _ _ _ Hv)
      | rewrite (bind_get_None _ _ _ _ Hv); by intros [= <- <-]].
    rewrite bind_indexOf.
    destruct v; try (by intros [= <- <-]).
    all: match goal with |- context [if ?b then _ else _] => destruct b end.
    all: try (intros [= <- <-]; left; by auto).
    all: rewrite (bind_get _ _ _ _ _ Hcookie), (bind_get _ _ _ _ _ Hentry),
           (bind_get _ _ _ _ _ Hv), bind_indexOf.
    all: match goal with |- context [if ?b then _ else _] => destruct b end.
    all: try (intros [= <- <-]; left; by auto).
    all: apply IH.
  - intros [= <- <-]. right. done.
Qed.

(** ** Runs that throw, and the console of runs that do not *)

Lemma request_of_None (event : value) (w : world) :
  request_of event = None -> handler event w = (w, Throw TypeError).
Proof.
  unfold request_of, handler. intros H.
  destruct (property event (Name "Records")) as [records|] eqn:E1;
    [rewrite (bind_get _ _ _ _ _ E1) | by rewrite (bind_get_None _ _ _ _ E1)].
  simpl in H.
  destruct (property records (Index 0)) as [record|] eqn:E2;
    [rewrite (bind_get _ _ _ _ _ E2) | by rewrite (bind_get_None _ _ _ _ E2)].
  simpl in H.
  destruct (property record (Name "cf")) as [cf|] eqn:E3;
    [rewrite (bind_get _ _ _ _ _ E3) | by rewrite (bind_get_None _ _ _ _ E3)].
  simpl in H. by rewrite (bind_get_None _ _ _ _ H).
Qed.

Lemma request_of_cases (event : value) :
  request_of event = None \/ exists request, request_of event = Some request.
Proof. destruct (request_of event); eauto. Qed.

Section Faults.
Context (event request : value).
Hypothesis Hrequest : request_of event = Some request.

(** The handler when [request.headers] or [headers.cookie] cannot be
    read. *)
Lemma handler_without_headers (w : world) :
  property request (Name "headers") ≫= (fun headers => property headers (Name "cookie"))
    = None ->
  handler event w = (request_logged w request, Throw TypeError).
Proof.
  intros H.
  destruct (request_of_Some _ _ Hrequest) as (records & record & cf & H1 & H2 & H3 & H4).
  unfold handler.
  rewrite (bind_get _ _ _ _ _ H1), (bind_get _ _ _ _ _ H2).
  rewrite (bind_get _ _ _ _ _ H3), (bind_get _ _ _ _ _ H4).
  rewrite bind_console_log.
  destruct (property request (Name "headers")) as [headers|] eqn:E5;
    [rewrite (bind_get _ _ _ _ _ E5) | by rewrite (bind_get_None _ _ _ _ E5)].
  simpl in H. by rewrite (bind_get_None _ _ _ _ H).
Qed.

(** The handler when the loop does not end normally. *)
Lemma handler_scan_stops (headers cookie : value) (w w1 : world)
    (o : outcome (string * bool)) :
  property request (Name "headers") = Some headers ->
  property headers (Name "cookie") = Some cookie ->
  ToBoolean cookie = true ->
  scan (S (iterations cookie)) headers 0 cookieExperimentA false
       (request_logged w request) = (w1, o) ->
  match o with
  | Return _ => True
  | Throw e => handler event w = (w1, Throw e)
  | Unsupported => handler event w = (w1, Unsupported)
  | OutOfFuel => handler event w = (w1, OutOfFuel)
  end.
Proof.
  intros Hheaders Hcookie Htruthy Hscan.
  destruct (request_of_Some _ _ Hrequest) as (records & record & cf & H1 & H2 & H3 & H4).
  destruct o; [done | ..]; unfold handler;
    rewrite (bind_get _ _ _ _ _ H1), (bind_get _ _ _ _ _ H2),
      (bind_get _ _ _ _ _ H3), (bind_get _ _ _ _ _ H4),
      bind_console_log, (bind_get _ _ _ _ _ Hheaders),
      (bind_get _ _ _ _ _ Hcookie), Htruthy;
    fold (request_logged w request); unfold bind at 1; by rewrite Hscan.
Qed.
End Faults.

(** A run that throws has written at most the request on the console and
    has left the random source alone. *)
Lemma handler_Throw (event : value) (w w' : world) (e : exn) :
  handler event w = (w', Throw e) ->
  (request_of event = None /\ w' = w) \/
  (exists request, request_of event = Some request /\ w' = request_logged w request).
Proof.
  intros Hrun.
  destruct (request_of_cases event) as [Hnone | [request Hrequest]].
  { left. rewrite (request_of_None _ _ Hnone) in Hrun. by injection Hrun as <-. }
  right. exists request. split; [done |].
  destruct (property request (Name "headers") ≫=
              (fun headers => property headers (Name "cookie"))) as [cookie|] eqn:E.
  2: { rewrite (handler_without_headers _ _ Hrequest _ E) in Hrun.
       by injection Hrun as <-. }
  destruct (property request (Name "headers")) as [headers|] eqn:Hheaders; [| done].
  simpl in E.
  destruct (ToBoolean cookie) eqn:Htruthy.
  - destruct (scan (S (iterations cookie)) headers 0 cookieExperimentA false
                (request_logged w request)) as [w1 o] eqn:Hscan.
    pose proof (scan_outcome _ _ _ _ _ _ _ _ Hscan) as Hout.
    destruct o as [[selected present]| | |].
    + destruct present.
      * rewrite (handler_pass_through _ _ _ _ Hrequest Hheaders E _ _ _ Htruthy Hscan)
          in Hrun. discriminate Hrun.
      * rewrite (handler_dice _ _ _ _ Hrequest Hheaders E w w1 selected) in Hrun;
          [discriminate Hrun | by rewrite Htruthy].
    + rewrite (handler_scan_stops _ _ Hrequest _ _ _ _ _ Hheaders E Htruthy Hscan)
        in Hrun. injection Hrun as <- _. done.
    + rewrite (handler_scan_stops _ _ Hrequest _ _ _ _ _ Hheaders E Htruthy Hscan)
        in Hrun. discriminate Hrun.
    + rewrite (handler_scan_stops _ _ Hrequest _ _ _ _ _ Hheaders E Htruthy Hscan)
        in Hrun. discriminate Hrun.
  - rewrite (handler_dice _ _ _ _ Hrequest Hheaders E w
               (request_logged w request) cookieExperimentA) in Hrun;
      [discriminate Hrun | by rewrite Htruthy].
Qed.

(** ** Further properties *)

(** X1: when [event.Records[0].cf.request] cannot be read, one of the
    levels on the way being [undefined] or [null], the handler throws a
    TypeError at once: nothing is written on the console, nothing is
    drawn, and the callback is not called. *)
Theorem missing_nesting_throws (event : value) (w : world) :
  request_of event = None ->
  handler event w = (w, Throw TypeError).
Proof. apply request_of_None. Qed.

Lemma missing_nesting_throws_witness :
  handler (Obj {[ "Records" := Arr [] ]}) (world_of (1 # 2)) =
    (world_of (1 # 2), Throw TypeError).
Proof.
  apply (missing_nesting_throws (Obj {[ "Records" := Arr [] ]}) (world_of (1 # 2))).
  reflexivity.
Defined.

(** X2: when the request has been read but [request.headers] cannot be
    (the request is [undefined] or [null]), or [headers.cookie] cannot be
    (the request has no header map), the handler throws a TypeError after
    it has written the request on the console, and calls nothing back. *)
Theorem missing_headers_throws (event request : value) (w : world) :
  request_of event = Some request ->
  property request (Name "headers") ≫= (fun headers => property headers (Name "cookie"))
    = None ->
  handler event w = (request_logged w request, Throw TypeError).
Proof. intros Hrequest. by apply handler_without_headers. Qed.

Lemma missing_headers_throws_witness :
  handler (event_of request_without_headers) (world_of (1 # 2)) =
    (request_logged (world_of (1 # 2)) request_without_headers, Throw TypeError).
Proof.
  apply (missing_headers_throws
           (event_of request_without_headers) request_without_headers (world_of (1 # 2)));
    reflexivity.
Defined.

(** One turn of the loop on an entry whose [value] cannot be searched. *)
Lemma scan_unreadable (headers : gmap string value) (entries : list value)
    (fuel i : nat) (entry : value)
    (selectedExperiment : string) (cookiePresent : bool) (w : world) :
  headers !! "cookie" = Some (Arr entries) ->
  entries !! i = Some entry ->
  unreadable entry = true ->
  scan (S fuel) (Obj headers) i selectedExperiment cookiePresent w =
    (w, Throw TypeError).
Proof.
  intros Hcookie Hentry Hbad.
  assert (property (Arr entries) (Index i) = Some entry) as Hi
    by (simpl; by rewrite Hentry).
  cbn [scan].
  rewrite (bind_get _ _ _ _ _ (property_cookie _ _ Hcookie)).
  rewrite (bind_get (Arr entries) (of_nat (length entries))) by done.
  rewrite (bind_Return _ _ _ _ _ (less_than_of_nat _ _ _)).
  rewrite bool_decide_eq_true_2 by (by eapply lookup_lt_Some).
  rewrite (bind_get _ _ _ _ _ (property_cookie _ _ Hcookie)).
  rewrite (bind_get _ _ _ _ _ Hi).
  unfold unreadable in Hbad.
  destruct (property entry (Name "value")) as [v|] eqn:Hv;
    [rewrite (bind_get _ _ _ _ _ Hv) | by rewrite (bind_get_None _ _ _ _ Hv)].
  rewrite bind_indexOf. by destruct v.
Qed.

(** X3: an entry of the cookie header whose [value] is missing, or is
    neither a string nor an array, makes the handler throw a TypeError when
    the loop comes to it, that is when no entry before it holds a marker;
    entries after it are of no help, even one that holds a marker.  The
    console then shows the request only, and nothing is called back. *)
Theorem malformed_entry_throws
    (event request : value) (headers : gmap string value)
    (before after : list value) (entry : value) (w : world) :
  carries event request headers ->
  headers !! "cookie" = Some (Arr (before ++ entry :: after)) ->
  Forall plain before ->
  unreadable entry = true ->
  handler event w = (request_logged w request, Throw TypeError).
Proof.
  intros [Hrequest Hheaders] Hcookie Hbefore Hbad.
  assert (property (Obj headers) (Name "cookie") = Some (Arr (before ++ entry :: after)))
    as Hprop by (simpl; by rewrite Hcookie).
  apply (handler_scan_stops _ _ Hrequest _ _ w _ (Throw TypeError) Hheaders Hprop eq_refl).
  cbn [iterations].
  replace (S (length (before ++ entry :: after)))
    with (length before + S (S (length after)))
    by (rewrite length_app; simpl; lia).
  rewrite (scan_plain _ _ Hcookie).
  - apply (scan_unreadable _ _ _ _ entry _ _ _ Hcookie); [| done].
    simpl. by rewrite list_lookup_middle.
  - intros j Hj. rewrite lookup_app_l by lia.
    destruct (lookup_lt_is_Some_2 before j) as [e He]; [lia |].
    exists e. split; [done |].
    rewrite Forall_forall in Hbefore. apply Hbefore. by eapply list_elem_of_lookup_2.
Qed.

Lemma malformed_entry_throws_witness :
  handler (event_of (request_with cookies_malformed_then_A)) (world_of (1 # 2)) =
    (request_logged (world_of (1 # 2)) (request_with cookies_malformed_then_A),
     Throw TypeError).
Proof.
  apply (malformed_entry_throws
           (event_of (request_with cookies_malformed_then_A))
           (request_with cookies_malformed_then_A) cookies_malformed_then_A
           [cookie_entry "theme=dark"] [cookie_entry "X-Experiment-Name=A"]
           (Obj {[ "key" := Str "Cookie" ]}) (world_of (1 # 2))).
  - apply carries_event_of.
  - reflexivity.
  - repeat constructor. eexists. split; [reflexivity |].
    split; apply String_indexOf_negative; reflexivity.
  - reflexivity.
Defined.

(** X4: when the first entry that holds a marker holds the B marker and
    not the A marker, the request is passed through with B selected,
    whatever the later entries are, and nothing is drawn. *)
Theorem first_match_B_selects_B
    (event request : value) (headers : gmap string value)
    (before after : list value) (entry : value) (s : string) (w : world) :
  carries event request headers ->
  headers !! "cookie" = Some (Arr (before ++ entry :: after)) ->
  Forall plain before ->
  entry_value entry = Some s ->
  ~ contains s cookieExperimentA ->
  contains s cookieExperimentB ->
  handler event w =
    (logged w (pass_trace request cookieExperimentB), Return (Callback Null request)).
Proof.
  intros Hcarries Hcookie Hbefore Hs HA HB.
  rewrite (handler_recognized _ _ _ Hcarries before after entry s) by auto.
  apply String_indexOf_negative in HA. by rewrite HA.
Qed.

Lemma first_match_B_selects_B_witness :
  handler (event_of (request_with cookies_B_A_B)) (world_of (1 # 10)) =
    (logged (world_of (1 # 10)) (pass_trace (request_with cookies_B_A_B) cookieExperimentB),
     Return (Callback Null (request_with cookies_B_A_B))).
Proof.
  apply (first_match_B_selects_B
           (event_of (request_with cookies_B_A_B)) (request_with cookies_B_A_B)
           cookies_B_A_B
           [] [cookie_entry "X-Experiment-Name=A"; cookie_entry "X-Experiment-Name=B"]
           (cookie_entry "X-Experiment-Name=B") "X-Experiment-Name=B").
  - apply carries_event_of.
  - reflexivity.
  - constructor.
  - reflexivity.
  - apply String_indexOf_negative. reflexivity.
  - exists "", "". reflexivity.
Defined.

(** X5: for a cookie header that is a list of well-formed entries, the
    handler passes the request through without a draw exactly when some
    entry holds a marker, and draws (to redirect) exactly when none does. *)
Theorem pass_through_iff_marker
    (event request : value) (headers : gmap string value)
    (entries : list value) (w : world) :
  carries event request headers ->
  headers !! "cookie" = Some (Arr entries) ->
  Forall well_formed_entry entries ->
  (Exists recognized entries <->
     (handler event w).2 = Return (Callback Null request) /\
     draws (handler event w).1 = draws w) /\
  (Forall plain entries <->
     (handler event w).2 = Return (Callback Null (dice_response (next_random w))) /\
     draws (handler event w).1 = S (draws w)).
Proof.
  intros Hcarries Hcookie Hwf.
  assert (Exists recognized entries ->
          (handler event w).2 = Return (Callback Null request) /\
          draws (handler event w).1 = draws w) as Hpass.
  { intros Hex.
    destruct (first_recognized entries Hwf Hex)
      as (before & entry & after & -> & Hbefore & Hentry).
    assert (exists s, entry_value entry = Some s /\
              (contains s cookieExperimentA \/ contains s cookieExperimentB))
      as (s & Hs & Hmarker).
    { destruct Hentry as [(s & Hs & H) | (s & Hs & H)]; exists s; auto. }
    by rewrite (handler_recognized _ _ _ Hcarries before after entry s). }
  assert (Forall plain entries ->
          (handler event w).2 = Return (Callback Null (dice_response (next_random w))) /\
          draws (handler event w).1 = S (draws w)) as Hdice.
  { intros Hplain.
    by rewrite (handler_unassigned _ _ _ Hcarries w) by (right; eauto). }
  split; (split; [done |]); intros [_ Hdraws];
    destruct (plain_or_recognized entries Hwf) as [Hplain | Hex]; try done.
  - apply Hdice in Hplain as [_ Hd]. lia.
  - apply Hpass in Hex as [_ Hd]. lia.
Qed.

Lemma pass_through_iff_marker_witness :
  (Exists recognized [cookie_entry "theme=dark"; cookie_entry "X-Experiment-Name=B"] <->
     (handler (event_of (request_with cookies_only_B)) (world_of (1 # 2))).2 =
       Return (Callback Null (request_with cookies_only_B)) /\
     draws (handler (event_of (request_with cookies_only_B)) (world_of (1 # 2))).1 =
       draws (world_of (1 # 2))) /\
  (Forall plain [cookie_entry "theme=dark"; cookie_entry "X-Experiment-Name=B"] <->
     (handler (event_of (request_with cookies_only_B)) (world_of (1 # 2))).2 =
       Return (Callback Null (dice_response (next_random (world_of (1 # 2))))) /\
     draws (handler (event_of (request_with cookies_only_B)) (world_of (1 # 2))).1 =
       S (draws (world_of (1 # 2)))).
Proof.
  apply (pass_through_iff_marker
           (event_of (request_with cookies_only_B)) (request_with cookies_only_B)
           cookies_only_B
           [cookie_entry "theme=dark"; cookie_entry "X-Experiment-Name=B"]
           (world_of (1 # 2))).
  - apply carries_event_of.
  - reflexivity.
  - repeat constructor; eexists; reflexivity.
Defined.

(** A run that ends normally has written four lines: those of a
    pass-through for a marker, or those of the random path. *)
Lemma handler_trace (event : value) (w w' : world) (c : completion) :
  handler event w = (w', Return c) ->
  exists request,
    request_of event = Some request /\
    ((exists marker,
        (marker = cookieExperimentA \/ marker = cookieExperimentB) /\
        c = Callback Null request /\
        w' = logged w (pass_trace request marker)) \/
     (c = Callback Null (dice_response (next_random w)) /\
      w' = World (console w ++ dice_trace request (next_random w))
                 (random w) (S (draws w)))).
Proof.
  intros Hrun.
  destruct (request_of_cases event) as [Hnone | [request Hrequest]].
  { rewrite (request_of_None _ _ Hnone) in Hrun. discriminate Hrun. }
  exists request. split; [done |].
  destruct (property request (Name "headers") ≫=
              (fun headers => property headers (Name "cookie"))) as [cookie|] eqn:E.
  2: { rewrite (handler_without_headers _ _ Hrequest _ E) in Hrun. discriminate Hrun. }
  destruct (property request (Name "headers")) as [headers|] eqn:Hheaders; [| done].
  simpl in E.
  assert (handler event w =
            (dice_world (request_logged w request),
             Return (Callback Null (dice_response (next_random (request_logged w request))))) ->
          c = Callback Null (dice_response (next_random w)) /\
          w' = World (console w ++ dice_trace request (next_random w))
                     (random w) (S (draws w))) as Hdice.
  { intros Hrun'. rewrite Hrun' in Hrun. injection Hrun as <- <-. split; [done |].
    unfold dice_world, dice_trace, request_logged, logged, next_random. simpl.
    by rewrite <- app_assoc. }
  destruct (ToBoolean cookie) eqn:Htruthy.
  - destruct (scan (S (iterations cookie)) headers 0 cookieExperimentA false
                (request_logged w request)) as [w1 o] eqn:Hscan.
    pose proof (scan_outcome _ _ _ _ _ _ _ _ Hscan) as Hout.
    pose proof (handler_scan_stops _ _ Hrequest _ _ _ _ _ Hheaders E Htruthy Hscan)
      as Hstop.
    destruct o as [[selected present]| | |];
      try (rewrite Hstop in Hrun; discriminate Hrun).
    destruct Hout as [(-> & Hmarker & ->) | (-> & -> & ->)].
    + left. exists selected. split; [done |].
      rewrite (handler_pass_through _ _ _ _ Hrequest Hheaders E _ _ _ Htruthy Hscan)
        in Hrun.
      injection Hrun as <- <-. split; [done |].
      unfold found_world, request_logged. by rewrite !logged_logged.
    + right. apply Hdice.
      apply (handler_dice _ _ _ _ Hrequest Hheaders E w _ cookieExperimentA).
      by rewrite Htruthy.
  - right. apply Hdice.
    apply (handler_dice _ _ _ _ Hrequest Hheaders E w _ cookieExperimentA).
    by rewrite Htruthy.
Qed.

(** X6: the console tells what the handler did.  On every event, a run
    that ends normally has added four lines: the first shows the request
    the event carries and the last shows the very response that is called
    back; between them stand either the marker found and the same marker as
    selected, the response being the request, or the throw of the dice and
    the variant chosen, the response being the redirect for that variant. *)
Theorem console_agrees_with_callback (event : value) (w : world) (c : completion) :
  (handler event w).2 = Return c ->
  exists request second third,
    request_of event = Some request /\
    console (handler event w).1 =
      console w ++ [LogLine "Lambda@Edge Request: %j" [request]; second; third;
                    LogLine "Final response: %j" [result c]] /\
    ((exists marker,
        (marker = cookieExperimentA \/ marker = cookieExperimentB) /\
        second = found_line marker /\
        third = LogLine
          "Experiment cookie has been found. Experimental group selected: %s"
          [Str marker] /\
        result c = request) \/
     (second = LogLine "Experiment cookie has not been found. Throwing dice..." [] /\
      ((third = LogLine "Experiment A chosen" [] /\
        result c = redirect "/" cookieExperimentA) \/
       (third = LogLine "Experiment B chosen" [] /\
        result c = redirect "/blue/" cookieExperimentB)))).
Proof.
  destruct (handler event w) as [w' o] eqn:Hrun. simpl. intros ->.
  destruct (handler_trace _ _ _ _ Hrun)
    as (request & Hrequest & [(marker & Hmarker & -> & ->) | (-> & ->)]).
  - exists request, (found_line marker),
      (LogLine "Experiment cookie has been found. Experimental group selected: %s"
         [Str marker]).
    split; [done |]. split; [done |]. left. by exists marker.
  - unfold dice_trace, dice_response. simpl.
    destruct (Qltb (next_random w) (3 # 4));
      (do 3 eexists; split; [done |]; split; [reflexivity |]; right; split; [done |]);
      [left | right]; done.
Qed.

Lemma console_agrees_with_callback_witness :
  exists request second third,
    request_of (event_of (request_with no_cookies)) = Some request /\
    console (handler (event_of (request_with no_cookies)) (world_of (1 # 2))).1 =
      console (world_of (1 # 2)) ++
        [LogLine "Lambda@Edge Request: %j" [request]; second; third;
         LogLine "Final response: %j"
           [result (Callback Null (redirect "/" cookieExperimentA))]] /\
    ((exists marker,
        (marker = cookieExperimentA \/ marker = cookieExperimentB) /\
        second = found_line marker /\
        third = LogLine
          "Experiment cookie has been found. Experimental group selected: %s"
          [Str marker] /\
        result (Callback Null (redirect "/" cookieExperimentA)) = request) \/
     (second = LogLine "Experiment cookie has not been found. Throwing dice..." [] /\
      ((third = LogLine "Experiment A chosen" [] /\
        result (Callback Null (redirect "/" cookieExperimentA)) =
          redirect "/" cookieExperimentA) \/
       (third = LogLine "Experiment B chosen" [] /\
        result (Callback Null (redirect "/" cookieExperimentA)) =
          redirect "/blue/" cookieExperimentB)))).
Proof.
  apply (console_agrees_with_callback
           (event_of (request_with no_cookies)) (world_of (1 # 2))
           (Callback Null (redirect "/" cookieExperimentA))).
  vm_compute. reflexivity.
Defined.

(** X7: a run that throws, on whatever event, has drawn nothing and has
    written nothing about a decision: the console is as it was when the
    request could not be read, and has the line of the request added
    otherwise. *)
Theorem throw_leaves_no_trace (event : value) (w : world) (e : exn) :
  (handler event w).2 = Throw e ->
  random (handler event w).1 = random w /\
  draws (handler event w).1 = draws w /\
  ((request_of event = None /\ console (handler event w).1 = console w) \/
   (exists request,
      request_of event = Some request /\
      console (handler event w).1 =
        console w ++ [LogLine "Lambda@Edge Request: %j" [request]])).
Proof.
  destruct (handler event w) as [w' o] eqn:Hrun. simpl. intros ->.
  destruct (handler_Throw _ _ _ _ Hrun) as [[Hnone ->] | (request & Hrequest & ->)].
  - split; [done |]. split; [done |]. by left.
  - split; [done |]. split; [done |]. right. by exists request.
Qed.

Lemma throw_leaves_no_trace_witness :
  random (handler (event_of (request_with cookies_without_value)) (world_of (1 # 2))).1 =
    random (world_of (1 # 2)) /\
  draws (handler (event_of (request_with cookies_without_value)) (world_of (1 # 2))).1 =
    draws (world_of (1 # 2)) /\
  ((request_of (event_of (request_with cookies_without_value)) = None /\
    console (handler (event_of (request_with cookies_without_value)) (world_of (1 # 2))).1 =
      console (world_of (1 # 2))) \/
   (exists request,
      request_of (event_of (request_with cookies_without_value)) = Some request /\
      console (handler (event_of (request_with cookies_without_value)) (world_of (1 # 2))).1 =
        console (world_of (1 # 2)) ++ [LogLine "Lambda@Edge Request: %j" [request]])).
Proof.
  apply (throw_leaves_no_trace
           (event_of (request_with cookies_without_value)) (world_of (1 # 2)) TypeError).
  vm_compute. reflexivity.
Defined.

(** X8: a cookie header that is not a list and has nothing to scan
    ([null], a boolean, a number, the empty string) is not a fault: the
    handler takes the random path as if the header were absent. *)
Theorem cookie_without_entries_redirects
    (event request : value) (headers : gmap string value) (cookie : value) (w : world) :
  carries event request headers ->
  headers !! "cookie" = Some cookie ->
  without_entries cookie = true ->
  handler event w =
    (dice_world (request_logged w request),
     Return (Callback Null (dice_response (next_random w)))).
Proof.
  intros [Hrequest Hheaders] Hcookie Hnone.
  assert (property (Obj headers) (Name "cookie") = Some cookie) as Hprop
    by (simpl; by rewrite Hcookie).
  rewrite (handler_dice _ _ _ _ Hrequest Hheaders Hprop w
             (request_logged w request) cookieExperimentA); [done |].
  destruct (ToBoolean cookie) eqn:Htruthy; [| done].
  cbn [scan]. rewrite (bind_get _ _ _ _ _ Hprop).
  destruct cookie as [| |b|n|s| |]; try done.
  by destruct s.
Qed.

Lemma cookie_without_entries_redirects_witness :
  handler (event_of (request_with cookie_null)) (world_of (1 # 2)) =
    (dice_world (request_logged (world_of (1 # 2)) (request_with cookie_null)),
     Return (Callback Null (dice_response (next_random (world_of (1 # 2)))))).
Proof.
  apply (cookie_without_entries_redirects
           (event_of (request_with cookie_null)) (request_with cookie_null)
           cookie_null Null (world_of (1 # 2))).
  - apply carries_event_of.
  - reflexivity.
  - reflexivity.
Defined.

(** X9: a cookie header that is a non-empty string, not a list of
    entries, makes the handler throw a TypeError, even when the string
    holds a marker: its first character is taken for an entry and has no
    [value]. *)
Theorem string_cookie_header_throws
    (event request : value) (headers : gmap string value) (s : string) (w : world) :
  carries event request headers ->
  headers !! "cookie" = Some (Str s) ->
  s <> "" ->
  handler event w = (request_logged w request, Throw TypeError).
Proof.
  intros [Hrequest Hheaders] Hcookie Hs.
  assert (property (Obj headers) (Name "cookie") = Some (Str s)) as Hprop
    by (simpl; by rewrite Hcookie).
  destruct s as [|c s]; [done |].
  apply (handler_scan_stops _ _ Hrequest _ _ w _ (Throw TypeError) Hheaders Hprop eq_refl).
  cbn [scan]. rewrite (bind_get _ _ _ _ _ Hprop).
  rewrite (bind_get (Str (String c s)) (of_nat (String.length (String c s)))) by done.
  rewrite (bind_Return _ _ _ _ _ (less_than_of_nat _ _ _)).
  rewrite bool_decide_eq_true_2 by (simpl; lia).
  rewrite (bind_get _ _ _ _ _ Hprop).
  rewrite (bind_get (Str (String c s)) (Str (String c EmptyString))) by done.
  rewrite (bind_get (Str (String c EmptyString)) Undefined) by done.
  done.
Qed.

Lemma string_cookie_header_throws_witness :
  handler (event_of (request_with cookie_string)) (world_of (1 # 2)) =
    (request_logged (world_of (1 # 2)) (request_with cookie_string), Throw TypeError).
Proof.
  apply (string_cookie_header_throws
           (event_of (request_with cookie_string)) (request_with cookie_string)
           cookie_string "X-Experiment-Name=A" (world_of (1 # 2))).
  - apply carries_event_of.
  - reflexivity.
  - discriminate.
Defined.

(** ** The budget of the loop, and what the loop reads *)

(** A run of the loop that ends within its budget ends the same way with
    a larger one. *)
Lemma scan_more_fuel (k fuel : nat) (headers : value) (i : nat)
    (selectedExperiment : string) (cookiePresent : bool) (w w' : world)
    (o : outcome (string * bool)) :
  scan fuel headers i selectedExperiment cookiePresent w = (w', o) ->
  o <> OutOfFuel ->
  scan (fuel + k) headers i selectedExperiment cookiePresent w = (w', o).
Proof.
  revert i. induction fuel as [|fuel IH]; intros i H Ho.
  { injection H as _ <-. done. }
  cbn [Nat.add]. cbn [scan] in H |- *.
  destruct (property headers (Name "cookie")) as [cookie|] eqn:Hcookie;
    [rewrite (bind_get _ _ _ _ _ Hcookie) in H; rewrite (bind_get _ _ _ _ _ Hcookie)
    | rewrite (bind_get_None _ _ _ _ Hcookie) in H;
      by rewrite (bind_get_None _ _ _ _ Hcookie)].
  destruct (property cookie (Name "length")) as [len|] eqn:Hlen;
    [rewrite (bind_get _ _ _ _ _ Hlen) in H; rewrite (bind_get _ _ _ _ _ Hlen)
    | rewrite (bind_get_None _ _ _ _ Hlen) in H;
      by rewrite (bind_get_None _ _ _ _ Hlen)].
  unfold bind at 1 in H. unfold bind at 1.
  destruct (less_than_outcome i len w) as (more & Hless & Hmore).
  rewrite Hless in H. rewrite Hless.
  destruct more as [[]| | |]; try done.
  rewrite (bind_get _ _ _ _ _ Hcookie) in H. rewrite (bind_get _ _ _ _ _ Hcookie).
  destruct (property cookie (Index i)) as [entry|] eqn:Hentry;
    [rewrite (bind_get _ _ _ _ _ Hentry) in H; rewrite (bind_get _ _ _ _ _ Hentry)
    | rewrite (bind_get_None _ _ _ _ Hentry) in H;
      by rewrite (bind_get_None _ _ _ _ Hentry)].
  destruct (property entry (Name "value")) as [v|] eqn:Hv;
    [rewrite (bind_get _ _ _ _ _ Hv) in H; rewrite (bind_get _ _ _ _ _ Hv)
    | rewrite (bind_get_None _ _ _ _ Hv) in H;
      by rewrite (bind_get_None _ _ _ _ Hv)].
  rewrite bind_indexOf in H. rewrite bind_indexOf.
  destruct v; try done.
  all: match goal with |- context [if ?b then _ else _] => destruct b end; try done.
  all: rewrite (bind_get _ _ _ _ _ Hcookie), (bind_get _ _ _ _ _ Hentry),
         (bind_get _ _ _ _ _ Hv), bind_indexOf in H.
  all: rewrite (bind_get _ _ _ _ _ Hcookie), (bind_get _ _ _ _ _ Hentry),
         (bind_get _ _ _ _ _ Hv), bind_indexOf.
  all: match goal with |- context [if ?b then _ else _] => destruct b end; try done.
  all: by apply IH.
Qed.

Lemma less_than_primitive (i : nat) (v : value) :
  match v with Str _ | Arr _ | Obj _ => False | _ => True end ->
  exists more, forall w, less_than i v w = (w, Return more).
Proof. destruct v as [| | |[]| | |]; try done; intros _; by eexists. Qed.

(** Over a cookie header whose [length] is primitive the loop ends
    normally or by a throw. *)
Lemma scan_Return_or_Throw (headers cookie : value) (fuel i : nat)
    (selectedExperiment : string) (cookiePresent : bool) (w : world) :
  property headers (Name "cookie") = Some cookie ->
  length_is_primitive cookie = true ->
  (scan fuel headers i selectedExperiment cookiePresent w).2 <> Unsupported.
Proof.
  intros Hcookie Hprimitive. revert i. induction fuel as [|fuel IH]; intros i; [done |].
  cbn [scan]. rewrite (bind_get _ _ _ _ _ Hcookie).
  unfold length_is_primitive in Hprimitive.
  destruct (property cookie (Name "length")) as [len|] eqn:Hlen;
    [rewrite (bind_get _ _ _ _ _ Hlen) | by rewrite (bind_get_None _ _ _ _ Hlen)].
  destruct (less_than_primitive i len) as [more Hless]; [by destruct len |].
  unfold bind at 1. rewrite Hless.
  destruct more; [| done].
  rewrite (bind_get _ _ _ _ _ Hcookie).
  destruct (property cookie (Index i)) as [entry|] eqn:Hentry;
    [rewrite (bind_get _ _ _ _ _ Hentry) | by rewrite (bind_get_None _ _ _ _ Hentry)].
  destruct (property entry (Name "value")) as [v|] eqn:Hv;
    [rewrite (bind_get _ _ _ _ _ Hv) | by rewrite (bind_get_None _ _ _ _ Hv)].
  rewrite bind_indexOf.
  destruct v; try (by simpl).
  all: match goal with |- context [if ?b then _ else _] => destruct b end; try (by simpl).
  all: rewrite (bind_get _ _ _ _ _ Hcookie), (bind_get _ _ _ _ _ Hentry),
         (bind_get _ _ _ _ _ Hv), bind_indexOf.
  all: match goal with |- context [if ?b then _ else _] => destruct b end; try (by simpl).
  all: apply IH.
Qed.

(** X10: the loop over the cookie header terminates when the header is a
    list, a string, or an object whose [length] is missing, [null], a
    boolean or a number, an infinite one included: it ends normally or by
    a TypeError within one test more than the header has elements, and
    running it longer changes nothing.  (An object whose [length] is
    itself a string, an array or an object is not covered.) *)
Theorem scan_terminates (headers cookie : value) (k : nat)
    (selectedExperiment : string) (cookiePresent : bool) (w : world) :
  property headers (Name "cookie") = Some cookie ->
  length_is_primitive cookie = true ->
  ((exists selected present,
      (scan (S (iterations cookie)) headers 0 selectedExperiment cookiePresent w).2 =
        Return (selected, present)) \/
   (scan (S (iterations cookie)) headers 0 selectedExperiment cookiePresent w).2 =
     Throw TypeError) /\
  scan (S (iterations cookie) + k) headers 0 selectedExperiment cookiePresent w =
    scan (S (iterations cookie)) headers 0 selectedExperiment cookiePresent w.
Proof.
  intros Hcookie Hprimitive.
  assert ((scan (S (iterations cookie)) headers 0 selectedExperiment cookiePresent w).2
            <> OutOfFuel) as Hfuel
    by (apply (scan_within_fuel _ cookie); [done | apply visited_0 | lia]).
  pose proof (scan_Return_or_Throw headers cookie (S (iterations cookie)) 0
                selectedExperiment cookiePresent w Hcookie Hprimitive) as Hsupported.
  destruct (scan (S (iterations cookie)) headers 0 selectedExperiment cookiePresent w)
    as [w' o] eqn:Hscan.
  split; [| by apply scan_more_fuel].
  simpl in *. destruct o as [[selected present]|[]| |]; try done.
  - left. by exists selected, present.
  - by right.
Qed.

Lemma scan_terminates_witness :
  ((exists selected present,
      (scan (S (iterations cookie_unbounded)) (Obj {[ "cookie" := cookie_unbounded ]})
            0 cookieExperimentA false (world_of (1 # 2))).2 =
        Return (selected, present)) \/
   (scan (S (iterations cookie_unbounded)) (Obj {[ "cookie" := cookie_unbounded ]})
         0 cookieExperimentA false (world_of (1 # 2))).2 = Throw TypeError) /\
  scan (S (iterations cookie_unbounded) + 5) (Obj {[ "cookie" := cookie_unbounded ]})
       0 cookieExperimentA false (world_of (1 # 2)) =
  scan (S (iterations cookie_unbounded)) (Obj {[ "cookie" := cookie_unbounded ]})
       0 cookieExperimentA false (world_of (1 # 2)).
Proof.
  apply (scan_terminates (Obj {[ "cookie" := cookie_unbounded ]}) cookie_unbounded
           5 cookieExperimentA false (world_of (1 # 2))).
  - reflexivity.
  - reflexivity.
Defined.

Lemma logged_nothing (w : world) : logged w [] = w.
Proof. destruct w. unfold logged. simpl. by rewrite app_nil_r. Qed.

Lemma less_than_any_world (i : nat) (v : value) :
  exists o, forall w, less_than i v w = (w, o).
Proof. destruct v as [| | |[]| | |]; by eexists. Qed.

Lemma bind_less_than {B : Type} (i : nat) (v : value) (o : outcome bool)
    (k : bool -> M B) (w : world) :
  (forall w, less_than i v w = (w, o)) ->
  bind (less_than i v) k w =
    match o with
    | Return more => k more w
    | Throw e => (w, Throw e)
    | Unsupported => (w, Unsupported)
    | OutOfFuel => (w, OutOfFuel)
    end.
Proof. intros H. unfold bind. rewrite H. by destruct o. Qed.

(** Runs a turn of the loop with the reads found among the hypotheses. *)
Ltac scan_run :=
  repeat match goal with
    | H : property ?v ?k = Some _ |- context [bind (get ?v ?k) _ _] =>
        rewrite (bind_get _ _ _ _ _ H)
    | H : property ?v ?k = None |- context [bind (get ?v ?k) _ _] =>
        rewrite (bind_get_None _ _ _ _ H)
    | H : forall w, less_than ?i ?v w = _ |- context [bind (less_than ?i ?v) _ _] =>
        rewrite (bind_less_than _ _ _ _ _ H)
    | |- context [bind (indexOf _ _) _ _] => rewrite bind_indexOf
    | H : ?b = _ |- context [if ?b then _ else _] => rewrite H
    end.

(** The loop does the same in every world: it writes the same lines and
    ends the same way.  It reads nothing of the headers but the cookie
    header. *)
Lemma scan_any_world (fuel : nat) (headers : value) (i : nat)
    (selectedExperiment : string) (cookiePresent : bool) :
  exists lines o,
    forall w, scan fuel headers i selectedExperiment cookiePresent w =
              (logged w lines, o).
Proof.
  revert i. induction fuel as [|fuel IH]; intros i.
  { exists [], OutOfFuel. intros w. by rewrite logged_nothing. }
  destruct (IH (S i)) as (lines & o & Hrest).
  destruct (property headers (Name "cookie")) as [cookie|] eqn:Hcookie.
  2: { exists [], (Throw TypeError). intros w. cbn [scan]. scan_run.
       by rewrite logged_nothing. }
  destruct (property cookie (Name "length")) as [len|] eqn:Hlen.
  2: { exists [], (Throw TypeError). intros w. cbn [scan]. scan_run.
       by rewrite logged_nothing. }
  destruct (less_than_any_world i len) as [more Hless].
  destruct more as [[]| | |].
  2-5: eexists [], _; intros w; cbn [scan]; scan_run; by rewrite logged_nothing.
  destruct (property cookie (Index i)) as [entry|] eqn:Hentry.
  2: { exists [], (Throw TypeError). intros w. cbn [scan]. scan_run.
       by rewrite logged_nothing. }
  destruct (property entry (Name "value")) as [v|] eqn:Hv.
  2: { exists [], (Throw TypeError). intros w. cbn [scan]. scan_run.
       by rewrite logged_nothing. }
  destruct v as [| | | |s|elems|].
  1-4, 7: exists [], (Throw TypeError); intros w; cbn [scan]; scan_run;
          by rewrite logged_nothing.
  - destruct (0 <=? String_indexOf s cookieExperimentA)%Z eqn:HA.
    { eexists [_], _. intros w. cbn [scan]. scan_run. reflexivity. }
    destruct (0 <=? String_indexOf s cookieExperimentB)%Z eqn:HB.
    { eexists [_], _. intros w. cbn [scan]. scan_run. reflexivity. }
    exists lines, o. intros w. cbn [scan]. scan_run. apply Hrest.
  - destruct (0 <=? Array_indexOf elems cookieExperimentA)%Z eqn:HA.
    { eexists [_], _. intros w. cbn [scan]. scan_run. reflexivity. }
    destruct (0 <=? Array_indexOf elems cookieExperimentB)%Z eqn:HB.
    { eexists [_], _. intros w. cbn [scan]. scan_run. reflexivity. }
    exists lines, o. intros w. cbn [scan]. scan_run. apply Hrest.
Qed.

Lemma scan_cookie_only (fuel : nat) (headers headers' : value) (i : nat)
    (selectedExperiment : string) (cookiePresent : bool) (w : world) :
  property headers (Name "cookie") = property headers' (Name "cookie") ->
  scan fuel headers i selectedExperiment cookiePresent w =
  scan fuel headers' i selectedExperiment cookiePresent w.
Proof.
  intros Hsame. revert i. induction fuel as [|fuel IH]; intros i; [done |].
  cbn [scan].
  destruct (property headers' (Name "cookie")) as [cookie|] eqn:Hcookie'.
  2: { by rewrite (bind_get_None _ _ _ _ Hsame), (bind_get_None _ _ _ _ Hcookie'). }
  rewrite (bind_get _ _ _ _ _ Hsame), (bind_get _ _ _ _ _ Hcookie').
  destruct (property cookie (Name "length")) as [len|] eqn:Hlen.
  2: { by rewrite !(bind_get_None _ _ _ _ Hlen). }
  rewrite !(bind_get _ _ _ _ _ Hlen).
  destruct (less_than_any_world i len) as [more Hless].
  rewrite !(bind_less_than _ _ _ _ _ Hless).
  destruct more as [[]| | |]; try done.
  rewrite (bind_get _ _ _ _ _ Hsame), (bind_get _ _ _ _ _ Hcookie').
  destruct (property cookie (Index i)) as [entry|] eqn:Hentry.
  2: { by rewrite !(bind_get_None _ _ _ _ Hentry). }
  rewrite !(bind_get _ _ _ _ _ Hentry).
  destruct (property entry (Name "value")) as [v|] eqn:Hv.
  2: { by rewrite !(bind_get_None _ _ _ _ Hv). }
  rewrite !(bind_get _ _ _ _ _ Hv), !bind_indexOf.
  destruct v; try done.
  all: match goal with |- context [if ?b then _ else _] => destruct b end; try done.
  all: rewrite (bind_get _ _ _ _ _ Hsame), (bind_get _ _ _ _ _ Hcookie').
  all: rewrite !(bind_get _ _ _ _ _ Hentry), !(bind_get _ _ _ _ _ Hv), !bind_indexOf.
  all: match goal with |- context [if ?b then _ else _] => destruct b end; try done.
Qed.

(** X11: the handler looks at nothing in a request but its cookie header.
    Two requests with the same cookie header, whatever their method, URI
    and other headers, handled when the next draw is the same, fare alike:
    either each is passed through with the same marker selected, or both
    runs end the same way, with the same redirect or the same fault. *)
Theorem decision_reads_cookie_only
    (event event' request request' : value) (headers headers' : gmap string value)
    (w w' : world) :
  carries event request headers ->
  carries event' request' headers' ->
  headers !! "cookie" = headers' !! "cookie" ->
  next_random w = next_random w' ->
  (exists marker,
     handler event w =
       (logged w (pass_trace request marker), Return (Callback Null request)) /\
     handler event' w' =
       (logged w' (pass_trace request' marker), Return (Callback Null request'))) \/
  (handler event w).2 = (handler event' w').2.
Proof.
  intros [Hrequest Hheaders] [Hrequest' Hheaders'] Hsame Hnext.
  set (cookie := default Undefined (headers !! "cookie")).
  assert (property (Obj headers) (Name "cookie") = Some cookie) as Hprop by done.
  assert (property (Obj headers') (Name "cookie") = Some cookie) as Hprop'
    by (simpl; by rewrite <- Hsame).
  destruct (ToBoolean cookie) eqn:Htruthy.
  - destruct (scan_any_world (S (iterations cookie)) (Obj headers) 0
                cookieExperimentA false) as (lines & o & Hscan).
    pose proof (Hscan (request_logged w request)) as Hrun.
    pose proof (Hscan (request_logged w' request')) as Hrun'.
    rewrite (scan_cookie_only _ (Obj headers) (Obj headers')) in Hrun'
      by (by rewrite Hprop, Hprop').
    pose proof (scan_outcome _ _ _ _ _ _ _ _ Hrun) as Hout.
    pose proof (handler_scan_stops _ _ Hrequest _ _ _ _ _ Hheaders Hprop Htruthy Hrun)
      as Hstop.
    pose proof (handler_scan_stops _ _ Hrequest' _ _ _ _ _ Hheaders' Hprop' Htruthy Hrun')
      as Hstop'.
    destruct o as [[selected present]| | |];
      try (right; by rewrite Hstop, Hstop').
    destruct Hout as [(-> & Hmarker & Hlines) | (-> & -> & Hlines)].
    + left. exists selected.
      assert (lines = [found_line selected]) as ->.
      { apply (f_equal console) in Hlines. simpl in Hlines.
        by apply app_inv_head in Hlines. }
      rewrite (handler_pass_through _ _ _ _ Hrequest Hheaders Hprop _ _ _ Htruthy Hrun).
      rewrite (handler_pass_through _ _ _ _ Hrequest' Hheaders' Hprop' _ _ _ Htruthy Hrun').
      unfold found_world, request_logged. by rewrite !logged_logged.
    + right.
      rewrite (handler_dice _ _ _ _ Hrequest Hheaders Hprop w _ cookieExperimentA)
        by (by rewrite Htruthy).
      rewrite (handler_dice _ _ _ _ Hrequest' Hheaders' Hprop' w' _ cookieExperimentA)
        by (by rewrite Htruthy).
      simpl. do 3 f_equal.
      assert (lines = []) as ->.
      { apply (f_equal console) in Hlines. simpl in Hlines.
        rewrite <- (app_nil_r (console w ++ _)) in Hlines at 2.
        by apply app_inv_head in Hlines. }
      exact Hnext.
  - right.
    rewrite (handler_dice _ _ _ _ Hrequest Hheaders Hprop w
               (request_logged w request) cookieExperimentA) by (by rewrite Htruthy).
    rewrite (handler_dice _ _ _ _ Hrequest' Hheaders' Hprop' w'
               (request_logged w' request') cookieExperimentA) by (by rewrite Htruthy).
    simpl. do 3 f_equal. exact Hnext.
Qed.

Lemma decision_reads_cookie_only_witness :
  (exists marker,
     handler (event_of (request_with cookies_B)) (world_of (1 # 2)) =
       (logged (world_of (1 # 2)) (pass_trace (request_with cookies_B) marker),
        Return (Callback Null (request_with cookies_B))) /\
     handler (event_of (Obj {[ "headers" := Obj cookies_B_among_headers ]})) (world_of (1 # 2)) =
       (logged (world_of (1 # 2))
          (pass_trace (Obj {[ "headers" := Obj cookies_B_among_headers ]}) marker),
        Return (Callback Null (Obj {[ "headers" := Obj cookies_B_among_headers ]})))) \/
  (handler (event_of (request_with cookies_B)) (world_of (1 # 2))).2 =
  (handler (event_of (Obj {[ "headers" := Obj cookies_B_among_headers ]})) (world_of (1 # 2))).2.
Proof.
  apply (decision_reads_cookie_only
           (event_of (request_with cookies_B))
           (event_of (Obj {[ "headers" := Obj cookies_B_among_headers ]}))
           (request_with cookies_B) (Obj {[ "headers" := Obj cookies_B_among_headers ]})
           cookies_B cookies_B_among_headers (world_of (1 # 2)) (world_of (1 # 2))).
  - apply carries_event_of.
  - split; reflexivity.
  - reflexivity.
  - reflexivity.
Defined.
